(** * freelan: command-line interface and configuration helper

    A shallow embedding of [src/old/cli.cpp] (the program entry point,
    [get_configuration_files], [parse_options], [main]) and of
    [configuration_helper.cpp] (the option schema, the converters, the
    credential loaders and [setup_configuration]).

    The program is written against Boost.Program_options, Boost.Asio,
    cryptoplus and the freelan core library.  The parts of these
    collaborators that the program relies on are modelled first; the
    program itself follows, function by function, under the names it has
    in the source. *)

From stdpp Require Import base option list strings gmap.

Open Scope string_scope.

(** ** Exceptions

    Every exception the program throws or lets through derives from
    [std::exception]; [main] catches that type only. *)
Inductive exception :=
  | runtime_error (what : string)        (* std::runtime_error *)
  | reading_file (path : string)         (* po::reading_file *)
  | required_option (name : string)      (* po::required_option *)
  | unknown_option (name : string)       (* po::unknown_option *)
  | multiple_occurrences (name : string) (* po::multiple_occurrences *)
  | multiple_values (name : string)      (* po::multiple_values *)
  | invalid_option_value (token : string)(* po::invalid_option_value *)
  | bad_any_cast                         (* boost::bad_any_cast *)
  | library_error (what : string).       (* any other std::exception of a collaborator *)

#[global] Instance exception_eq_dec : EqDecision exception.
Proof. solve_decision. Defined.

(** The double quote character, as a string. *)
Definition quote : string := String (Ascii.ascii_of_nat 34) EmptyString.

(** ** Boost.Program_options

    Modelled from the spec: the library is not among the sources.  The
    model keeps what the program relies on, as the library documents it
    and as the spec restates it (4.3: a later source does not overwrite an
    option an earlier source has set, defaults fill what no source set,
    and a required option without a value is an error that names it):
    [store], [notify], [count], the subscript and [as]. *)
Module po.

(** The content of a [boost::any] held by a [variable_value]; the
    program stores strings, booleans, unsigned integers and vectors of
    strings. *)
Inductive any :=
  | any_empty
  | any_string (s : string)
  | any_bool (b : bool)
  | any_uint (n : N)
  | any_strings (l : list string).

#[global] Instance any_eq_dec : EqDecision any.
Proof. solve_decision. Defined.

Inductive kind := K_string | K_bool | K_uint | K_strings.

(** [untyped] is the semantic of an option declared with a name and a
    description only (a flag); [typed] is [po::value<T>()] with its
    [default_value] and [required()] modifiers. *)
Inductive value_semantic :=
  | untyped
  | typed (k : kind) (default : option any) (required : bool).

Record option_description := Option_description {
  key : string;
  semantic : value_semantic
}.

Definition options_description := list option_description.

Definition is_required (s : value_semantic) : bool :=
  match s with typed _ _ r => r | untyped => false end.

Definition apply_default (s : value_semantic) : option any :=
  match s with typed _ d _ => d | untyped => None end.

Fixpoint find_nothrow (desc : options_description) (name : string)
  : option option_description :=
  match desc with
  | [] => None
  | d :: rest => if String.eqb (key d) name then Some d else find_nothrow rest name
  end.

(** One occurrence of an option in a source, as the parsers return it. *)
Record basic_option := Basic_option {
  string_key : string;
  value : list string;
  unregistered : bool
}.

Record variable_value := Variable_value {
  v : any;
  m_defaulted : bool
}.

Definition empty_value : variable_value := Variable_value any_empty false.

Definition value_empty (vv : variable_value) : bool :=
  match v vv with any_empty => true | _ => false end.

(** [variables_map]: the [std::map] it derives from, the names whose
    value is final, and the required names ([std::map] and [std::set]
    iterate in key order, so [m_required] is kept sorted). *)
Record variables_map := Variables_map {
  m : gmap string variable_value;
  m_final : gset string;
  m_required : list string
}.

Definition empty_map : variables_map := Variables_map ∅ ∅ [].

Fixpoint set_insert (x : string) (l : list string) : list string :=
  match l with
  | [] => [x]
  | y :: rest =>
      if String.eqb x y then l
      else if String.ltb x y then x :: l
      else y :: set_insert x rest
  end.

(** [vm.count(name)] *)
Definition count (vm : variables_map) (name : string) : bool :=
  bool_decide (is_Some (m vm !! name)).

(** [vm[name]]: a name that is not in the map gives an empty value. *)
Definition get (vm : variables_map) (name : string) : variable_value :=
  default empty_value (m vm !! name).

(** [variable_value::as<T>()] is [boost::any_cast<const T&>]: it throws
    [bad_any_cast] on an empty value or on a value of another type. *)
Definition as_string (vv : variable_value) : exception + string :=
  match v vv with any_string s => inr s | _ => inl bad_any_cast end.

Definition as_bool (vv : variable_value) : exception + bool :=
  match v vv with any_bool b => inr b | _ => inl bad_any_cast end.

Definition as_uint (vv : variable_value) : exception + N :=
  match v vv with any_uint n => inr n | _ => inl bad_any_cast end.

Definition as_strings (vv : variable_value) : exception + list string :=
  match v vv with any_strings l => inr l | _ => inl bad_any_cast end.

(** *** Validation of tokens *)

Definition tolower (c : Ascii.ascii) : Ascii.ascii :=
  let n := Ascii.nat_of_ascii c in
  if (65 <=? n)%nat && (n <=? 90)%nat then Ascii.ascii_of_nat (n + 32) else c.

Fixpoint to_lower (s : string) : string :=
  match s with
  | EmptyString => EmptyString
  | String c rest => String (tolower c) (to_lower rest)
  end.

Definition get_single_string (name : string) (xs : list string) (allow_empty : bool)
  : exception + string :=
  match xs with
  | [] => if allow_empty then inr EmptyString else inl (invalid_option_value EmptyString)
  | [x] => inr x
  | _ => inl (multiple_values name)
  end.

Definition validate_bool (s : string) : exception + bool :=
  let s' := to_lower s in
  if String.eqb s' EmptyString || String.eqb s' "on" || String.eqb s' "yes"
     || String.eqb s' "1" || String.eqb s' "true" then inr true
  else if String.eqb s' "off" || String.eqb s' "no"
     || String.eqb s' "0" || String.eqb s' "false" then inr false
  else inl (invalid_option_value s).

Section Validate.
(** [boost::lexical_cast<unsigned int>] *)
Variable lexical_cast_uint : string -> option N.

(** [value_semantic::parse]: the new content of the value store. *)
Definition parse (name : string) (s : value_semantic) (store : any)
    (tokens : list string) : exception + any :=
  match s with
  | untyped =>
      match store with
      | any_empty =>
          match tokens with
          | [] => inr (any_string EmptyString)
          | [t] => inr (any_string t)
          | _ => inl (multiple_values name)
          end
      | _ => inl (multiple_occurrences name)
      end
  | typed K_strings _ _ =>
      match store with
      | any_empty => inr (any_strings tokens)
      | any_strings l => inr (any_strings (l ++ tokens))
      | _ => inl bad_any_cast
      end
  | typed k _ _ =>
      match store with
      | any_empty =>
          match k with
          | K_bool =>
              match get_single_string name tokens true with
              | inl e => inl e
              | inr t =>
                  match validate_bool t with
                  | inl e => inl e
                  | inr b => inr (any_bool b)
                  end
              end
          | K_uint =>
              match get_single_string name tokens false with
              | inl e => inl e
              | inr t =>
                  match lexical_cast_uint t with
                  | Some n => inr (any_uint n)
                  | None => inl (invalid_option_value t)
                  end
              end
          | _ =>
              match get_single_string name tokens false with
              | inl e => inl e
              | inr t => inr (any_string t)
              end
          end
      | _ => inl (multiple_occurrences name)
      end
  end.

(** First loop of [po::store]: every parsed option is converted and
    stored, unless it is unregistered or its value is final.  A value
    that is only a default is erased by an explicit one.  No option of
    this program is declared [composing()], so every name stored here
    becomes final for the later calls. *)
Fixpoint store_options (desc : options_description) (opts : list basic_option)
    (xm : gmap string variable_value) (final new_final : gset string)
  : exception + (gmap string variable_value * gset string) :=
  match opts with
  | [] => inr (xm, new_final)
  | o :: rest =>
      let name := string_key o in
      if String.eqb name EmptyString then store_options desc rest xm final new_final
      else if unregistered o then store_options desc rest xm final new_final
      else if bool_decide (name ∈ final) then store_options desc rest xm final new_final
      else
        match find_nothrow desc name with
        | None => inl (unknown_option name)
        | Some d =>
            let v0 := default empty_value (xm !! name) in
            let v1 := if m_defaulted v0 then empty_value else v0 in
            match parse name (semantic d) (v v1) (value o) with
            | inl e => inl e
            | inr a =>
                store_options desc rest
                  (<[name := Variable_value a (m_defaulted v1)]> xm) final
                  ({[name]} ∪ new_final)
            end
        end
  end.

(** Second loop of [po::store]: default values fill the names that have no
    value yet, and required names are recorded. *)
Fixpoint store_defaults (desc : options_description)
    (xm : gmap string variable_value) (required : list string)
  : gmap string variable_value * list string :=
  match desc with
  | [] => (xm, required)
  | d :: rest =>
      let xm' :=
        match xm !! key d with
        | Some _ => xm
        | None =>
            match apply_default (semantic d) with
            | Some def => <[key d := Variable_value def true]> xm
            | None => xm
            end
        end in
      let required' :=
        if is_required (semantic d) then set_insert (key d) required else required in
      store_defaults rest xm' required'
  end.

Definition store (desc : options_description) (opts : list basic_option)
    (vm : variables_map) : exception + variables_map :=
  match store_options desc opts (m vm) (m_final vm) ∅ with
  | inl e => inl e
  | inr (xm, new_final) =>
      let '(xm', required) := store_defaults desc xm (m_required vm) in
      inr (Variables_map xm' (m_final vm ∪ new_final) required)
  end.
End Validate.

(** [po::notify]: the first required name, in key order, that has no value
    or an empty one raises [required_option]. *)
Fixpoint check_required (xm : gmap string variable_value) (required : list string)
  : option exception :=
  match required with
  | [] => None
  | r :: rest =>
      match xm !! r with
      | Some vv => if value_empty vv then Some (required_option r) else check_required xm rest
      | None => Some (required_option r)
      end
  end.

Definition notify (vm : variables_map) : option exception :=
  check_required (m vm) (m_required vm).

(** [po::parse_command_line], from the command line split into long option
    names and their value tokens: a name outside the description is an
    error. *)
Fixpoint parse_command_line (args : list (string * list string))
    (desc : options_description) : exception + list basic_option :=
  match args with
  | [] => inr []
  | (name, tokens) :: rest =>
      match find_nothrow desc name with
      | None => inl (unknown_option name)
      | Some _ =>
          match parse_command_line rest desc with
          | inl e => inl e
          | inr l => inr (Basic_option name tokens false :: l)
          end
      end
  end.

(** [po::parse_config_file] with [allow_unregistered = true], from the file
    split into qualified names and values: a name outside the description
    is kept and marked unregistered. *)
Definition parse_config_file (lines : list (string * string))
    (desc : options_description) : list basic_option :=
  map (fun '(name, val) =>
         Basic_option name [val]
           (match find_nothrow desc name with None => true | Some _ => false end)) lines.

End po.

(** ** Collaborators of the program

    What the program takes from [parsers.hpp], cryptoplus, libfscp,
    Boost.Filesystem and the build: types whose values it only passes
    along, and functions that either return or throw. *)
Class Collaborators := {
  (* the WINDOWS macro of the build *)
  WINDOWS : bool;
  (* boost::filesystem::path::operator/ *)
  path_append : string -> string -> string;
  (* boost::lexical_cast<unsigned int> *)
  lexical_cast_uint : string -> option N;
  (* parsers.hpp: parse<T> and parse_optional<T> *)
  ep_type : Type;
  ipv4_address_prefix_length_type : Type;
  ipv6_address_prefix_length_type : Type;
  ethernet_address_type : Type;
  parse_ep_type : string -> exception + ep_type;
  parse_ethernet_address_type : string -> exception + ethernet_address_type;
  parse_optional_ipv4 : string -> exception + option ipv4_address_prefix_length_type;
  parse_optional_ipv6 : string -> exception + option ipv6_address_prefix_length_type;
  (* cryptoplus: an open file, certificates and keys; the default
     constructed handles are the null ones *)
  file : Type;
  cert_type : Type;
  pkey : Type;
  null_cert : cert_type;
  null_pkey : pkey;
  from_certificate : file -> exception + cert_type;
  from_private_key : file -> exception + pkey;
  from_trusted_certificate : file -> exception + cert_type;
  (* fscp::identity_store and its constructor *)
  identity_store : Type;
  make_identity_store : cert_type -> pkey -> cert_type -> pkey -> exception + identity_store
}.

(** ** The configuration aggregate ([freelan.hpp], as the program uses it) *)

(** [boost::asio::ip::udp], the type of the hostname resolution protocol. *)
Inductive udp := udp_v4 | udp_v6.

#[global] Instance udp_eq_dec : EqDecision udp.
Proof. solve_decision. Defined.

Inductive certificate_validation_method_type := CVM_DEFAULT | CVM_NONE.

Inductive routing_method_type := RM_SWITCH | RM_HUB.

(** The certificate validation callback: what the default constructor
    left, or [execute_certificate_validation_script] bound to a script. *)
Inductive certificate_validation_callback_type :=
  | callback_default
  | callback_script (script : string).

Section Configuration.
Context `{Collaborators}.

Record fscp_configuration := Fscp_configuration {
  hostname_resolution_protocol : udp;
  listen_on : ep_type;
  hello_timeout : N;
  contact_list : list ep_type
}.

Record security_configuration := Security_configuration {
  identity : identity_store;
  certificate_validation_method : certificate_validation_method_type;
  certificate_validation_callback : certificate_validation_callback_type;
  certificate_authority_list : list cert_type
}.

Record tap_adapter_configuration := Tap_adapter_configuration {
  enabled : bool;
  ipv4_address_prefix_length : option ipv4_address_prefix_length_type;
  ipv6_address_prefix_length : option ipv6_address_prefix_length_type;
  arp_proxy_enabled : bool;
  arp_proxy_fake_ethernet_address : ethernet_address_type;
  dhcp_proxy_enabled : bool;
  dhcp_server_ipv4_address_prefix_length : option ipv4_address_prefix_length_type;
  dhcp_server_ipv6_address_prefix_length : option ipv6_address_prefix_length_type
}.

Record switch_configuration := Switch_configuration {
  routing_method : routing_method_type;
  relay_mode_enabled : bool
}.

Record configuration := Configuration {
  fscp : fscp_configuration;
  security : security_configuration;
  tap_adapter : tap_adapter_configuration;
  switch_ : switch_configuration
}.

(** Assignments to one member, as functions on the aggregate. *)
Definition with_fscp (f : fscp_configuration -> fscp_configuration) (c : configuration) :=
  Configuration (f (fscp c)) (security c) (tap_adapter c) (switch_ c).

Definition with_security (f : security_configuration -> security_configuration)
    (c : configuration) :=
  Configuration (fscp c) (f (security c)) (tap_adapter c) (switch_ c).

Definition with_tap_adapter (f : tap_adapter_configuration -> tap_adapter_configuration)
    (c : configuration) :=
  Configuration (fscp c) (security c) (f (tap_adapter c)) (switch_ c).

Definition with_switch (f : switch_configuration -> switch_configuration)
    (c : configuration) :=
  Configuration (fscp c) (security c) (tap_adapter c) (f (switch_ c)).

Definition set_hostname_resolution_protocol (x : udp) :=
  with_fscp (fun c => Fscp_configuration x (listen_on c) (hello_timeout c) (contact_list c)).

Definition set_listen_on (x : ep_type) :=
  with_fscp (fun c =>
    Fscp_configuration (hostname_resolution_protocol c) x (hello_timeout c) (contact_list c)).

Definition set_hello_timeout (x : N) :=
  with_fscp (fun c =>
    Fscp_configuration (hostname_resolution_protocol c) (listen_on c) x (contact_list c)).

Definition set_contact_list (x : list ep_type) :=
  with_fscp (fun c =>
    Fscp_configuration (hostname_resolution_protocol c) (listen_on c) (hello_timeout c) x).

Definition set_identity (x : identity_store) :=
  with_security (fun c =>
    Security_configuration x (certificate_validation_method c)
      (certificate_validation_callback c) (certificate_authority_list c)).

Definition set_certificate_validation_method (x : certificate_validation_method_type) :=
  with_security (fun c =>
    Security_configuration (identity c) x
      (certificate_validation_callback c) (certificate_authority_list c)).

Definition set_certificate_validation_callback (x : certificate_validation_callback_type) :=
  with_security (fun c =>
    Security_configuration (identity c) (certificate_validation_method c)
      x (certificate_authority_list c)).

Definition set_certificate_authority_list (x : list cert_type) :=
  with_security (fun c =>
    Security_configuration (identity c) (certificate_validation_method c)
      (certificate_validation_callback c) x).

Definition set_enabled (x : bool) :=
  with_tap_adapter (fun c =>
    Tap_adapter_configuration x (ipv4_address_prefix_length c)
      (ipv6_address_prefix_length c) (arp_proxy_enabled c)
      (arp_proxy_fake_ethernet_address c) (dhcp_proxy_enabled c)
      (dhcp_server_ipv4_address_prefix_length c) (dhcp_server_ipv6_address_prefix_length c)).

Definition set_ipv4_address_prefix_length (x : option ipv4_address_prefix_length_type) :=
  with_tap_adapter (fun c =>
    Tap_adapter_configuration (enabled c) x
      (ipv6_address_prefix_length c) (arp_proxy_enabled c)
      (arp_proxy_fake_ethernet_address c) (dhcp_proxy_enabled c)
      (dhcp_server_ipv4_address_prefix_length c) (dhcp_server_ipv6_address_prefix_length c)).

Definition set_ipv6_address_prefix_length (x : option ipv6_address_prefix_length_type) :=
  with_tap_adapter (fun c =>
    Tap_adapter_configuration (enabled c) (ipv4_address_prefix_length c)
      x (arp_proxy_enabled c)
      (arp_proxy_fake_ethernet_address c) (dhcp_proxy_enabled c)
      (dhcp_server_ipv4_address_prefix_length c) (dhcp_server_ipv6_address_prefix_length c)).

Definition set_arp_proxy_enabled (x : bool) :=
  with_tap_adapter (fun c =>
    Tap_adapter_configuration (enabled c) (ipv4_address_prefix_length c)
      (ipv6_address_prefix_length c) x
      (arp_proxy_fake_ethernet_address c) (dhcp_proxy_enabled c)
      (dhcp_server_ipv4_address_prefix_length c) (dhcp_server_ipv6_address_prefix_length c)).

Definition set_arp_proxy_fake_ethernet_address (x : ethernet_address_type) :=
  with_tap_adapter (fun c =>
    Tap_adapter_configuration (enabled c) (ipv4_address_prefix_length c)
      (ipv6_address_prefix_length c) (arp_proxy_enabled c)
      x (dhcp_proxy_enabled c)
      (dhcp_server_ipv4_address_prefix_length c) (dhcp_server_ipv6_address_prefix_length c)).

Definition set_dhcp_proxy_enabled (x : bool) :=
  with_tap_adapter (fun c =>
    Tap_adapter_configuration (enabled c) (ipv4_address_prefix_length c)
      (ipv6_address_prefix_length c) (arp_proxy_enabled c)
      (arp_proxy_fake_ethernet_address c) x
      (dhcp_server_ipv4_address_prefix_length c) (dhcp_server_ipv6_address_prefix_length c)).

Definition set_dhcp_server_ipv4_address_prefix_length
    (x : option ipv4_address_prefix_length_type) :=
  with_tap_adapter (fun c =>
    Tap_adapter_configuration (enabled c) (ipv4_address_prefix_length c)
      (ipv6_address_prefix_length c) (arp_proxy_enabled c)
      (arp_proxy_fake_ethernet_address c) (dhcp_proxy_enabled c)
      x (dhcp_server_ipv6_address_prefix_length c)).

Definition set_dhcp_server_ipv6_address_prefix_length
    (x : option ipv6_address_prefix_length_type) :=
  with_tap_adapter (fun c =>
    Tap_adapter_configuration (enabled c) (ipv4_address_prefix_length c)
      (ipv6_address_prefix_length c) (arp_proxy_enabled c)
      (arp_proxy_fake_ethernet_address c) (dhcp_proxy_enabled c)
      (dhcp_server_ipv4_address_prefix_length c) x).

Definition set_routing_method (x : routing_method_type) :=
  with_switch (fun c => Switch_configuration x (relay_mode_enabled c)).

Definition set_relay_mode_enabled (x : bool) :=
  with_switch (fun c => Switch_configuration (routing_method c) x).

(** ** The process environment and what the process does to it *)

(** What the process reads: the environment variables, the two
    directories, the files an [ifstream] can open (with their content split
    into qualified names and values) and the files [cryptoplus::file::open]
    can open. *)
Record environment := Environment {
  getenv : string -> option string;
  get_home_directory : string;
  get_application_directory : string;
  ifstream : string -> option (list (string * string));
  file_open : string -> exception + file
}.

(** What the process does, in order. *)
Inductive event :=
  | ifstream_opened (path : string) (good : bool)
  | cout_reading (path : string)
  | cerr_warning (locations : list string)
  | cout_usage
  | file_opened (path : string)
  | core_started (c : configuration) (debug : bool)
  | cerr_error (e : exception).

(** The objects [main] owns and hands to [parse_options] by reference, and
    the trace of the process. *)
Record state := State {
  st_configuration : configuration;
  st_debug : bool;
  st_trace : list event
}.

(** A computation that reads and writes the state and returns or throws;
    at a throw the state is the one reached so far. *)
Definition M (A : Type) : Type := state -> (exception + A) * state.

#[global] Instance M_ret : MRet M := fun A a st => (inr a, st).

#[global] Instance M_bind : MBind M := fun A B f c st =>
  match c st with
  | (inr a, st') => f a st'
  | (inl e, st') => (inl e, st')
  end.

Definition throw {A} (e : exception) : M A := fun st => (inl e, st).

Definition lift {A} (r : exception + A) : M A := fun st => (r, st).

Definition assign (f : configuration -> configuration) : M unit := fun st =>
  (inr tt, State (f (st_configuration st)) (st_debug st) (st_trace st)).

Definition read_configuration : M configuration := fun st => (inr (st_configuration st), st).

Definition set_debug (b : bool) : M unit := fun st =>
  (inr tt, State (st_configuration st) b (st_trace st)).

Definition emit (e : event) : M unit := fun st =>
  (inr tt, State (st_configuration st) (st_debug st) (st_trace st ++ [e])).

(** [BOOST_FOREACH] *)
Fixpoint foreach {A} (l : list A) (body : A -> M unit) : M unit :=
  match l with
  | [] => mret tt
  | x :: rest => body x;; foreach rest body
  end.

End Configuration.

(** ** configuration_helper.cpp *)
Section Configuration_helper.
Context `{Collaborators}.
Variable env : environment.

Definition parse_network_hostname_resolution_protocol (str : string) : exception + udp :=
  if String.eqb str "system_default" then inr udp_v4
  else if String.eqb str "ipv4" then inr udp_v4
  else if String.eqb str "ipv6" then inr udp_v6
  else inl (runtime_error
              (quote +:+ str +:+ quote +:+ " is not a valid hostname resolution protocol")).

Definition to_certificate_validation_method (str : string)
  : exception + certificate_validation_method_type :=
  if String.eqb str "default" then inr CVM_DEFAULT
  else if String.eqb str "none" then inr CVM_NONE
  else inl (runtime_error
              (quote +:+ str +:+ quote +:+ " is not a valid certificate validation method")).

(** A [time_duration] is modelled by its number of milliseconds. *)
Definition to_time_duration (msduration : N) : N := msduration.

Definition load_file (filename : string) : M file :=
  emit (file_opened filename);;
  match file_open env filename with
  | inr f => mret f
  | inl (runtime_error _) =>
      throw (runtime_error ("Unable to open the specified file: " +:+ filename))
  | inl e => throw e
  end.

Definition load_certificate (filename : string) : M cert_type :=
  f ← load_file filename; lift (from_certificate f).

Definition load_private_key (filename : string) : M pkey :=
  f ← load_file filename; lift (from_private_key f).

Definition load_trusted_certificate (filename : string) : M cert_type :=
  f ← load_file filename; lift (from_trusted_certificate f).

Definition to_routing_method (str : string) : exception + routing_method_type :=
  if String.eqb str "switch" then inr RM_SWITCH
  else if String.eqb str "hub" then inr RM_HUB
  else inl (runtime_error (quote +:+ str +:+ quote +:+ " is not a valid routing method")).

Definition get_fscp_options : po.options_description :=
  [ po.Option_description "fscp.hostname_resolution_protocol"
      (po.typed po.K_string (Some (po.any_string "system_default")) false);
    po.Option_description "fscp.listen_on"
      (po.typed po.K_string (Some (po.any_string "0.0.0.0:12000")) false);
    po.Option_description "fscp.hello_timeout"
      (po.typed po.K_uint (Some (po.any_uint 3000)) false);
    po.Option_description "fscp.contact"
      (po.typed po.K_strings (Some (po.any_strings [])) false) ].

Definition get_security_options : po.options_description :=
  [ po.Option_description "security.signature_certificate_file"
      (po.typed po.K_string None true);
    po.Option_description "security.signature_private_key_file"
      (po.typed po.K_string None true);
    po.Option_description "security.encryption_certificate_file"
      (po.typed po.K_string None false);
    po.Option_description "security.encryption_private_key_file"
      (po.typed po.K_string None false);
    po.Option_description "security.certificate_validation_method"
      (po.typed po.K_string (Some (po.any_string "default")) false);
    po.Option_description "security.certificate_validation_script"
      (po.typed po.K_string None false);
    po.Option_description "security.authority_certificate_file"
      (po.typed po.K_strings (Some (po.any_strings [])) false) ].

Definition get_tap_adapter_options : po.options_description :=
  [ po.Option_description "tap_adapter.enabled"
      (po.typed po.K_bool (Some (po.any_bool true)) false);
    po.Option_description "tap_adapter.ipv4_address_prefix_length"
      (po.typed po.K_string (Some (po.any_string "9.0.0.1/24")) false);
    po.Option_description "tap_adapter.ipv6_address_prefix_length"
      (po.typed po.K_string (Some (po.any_string "fe80::1/10")) false);
    po.Option_description "tap_adapter.arp_proxy_enabled"
      (po.typed po.K_bool (Some (po.any_bool false)) false);
    po.Option_description "tap_adapter.arp_proxy_fake_ethernet_address"
      (po.typed po.K_string (Some (po.any_string "00:aa:bb:cc:dd:ee")) false);
    po.Option_description "tap_adapter.dhcp_proxy_enabled"
      (po.typed po.K_bool (Some (po.any_bool true)) false);
    po.Option_description "tap_adapter.dhcp_server_ipv4_address_prefix_length"
      (po.typed po.K_string (Some (po.any_string "9.0.0.0/24")) false);
    po.Option_description "tap_adapter.dhcp_server_ipv6_address_prefix_length"
      (po.typed po.K_string (Some (po.any_string "fe80::/10")) false) ].

Definition get_switch_options : po.options_description :=
  [ po.Option_description "switch.routing_method"
      (po.typed po.K_string (Some (po.any_string "switch")) false);
    po.Option_description "switch.relay_mode_enabled"
      (po.typed po.K_bool (Some (po.any_bool false)) false) ].

(** [vm[name].as<T>()] *)
Definition vm_string (vm : po.variables_map) (name : string) : M string :=
  lift (po.as_string (po.get vm name)).

Definition vm_bool (vm : po.variables_map) (name : string) : M bool :=
  lift (po.as_bool (po.get vm name)).

Definition vm_uint (vm : po.variables_map) (name : string) : M N :=
  lift (po.as_uint (po.get vm name)).

Definition vm_strings (vm : po.variables_map) (name : string) : M (list string) :=
  lift (po.as_strings (po.get vm name)).

Definition push_back_contact (x : ep_type) : M unit :=
  assign (fun c => set_contact_list (contact_list (fscp c) ++ [x]) c).

Definition push_back_certificate_authority (x : cert_type) : M unit :=
  assign (fun c =>
    set_certificate_authority_list (certificate_authority_list (security c) ++ [x]) c).

(** [setup_configuration] is one function of four commented parts; the
    parts are named here, the security part in two halves. *)

(** FSCP options (lines 443 to 454) *)
Definition setup_fscp_options (vm : po.variables_map) : M unit :=
  s ← vm_string vm "fscp.hostname_resolution_protocol";
  p ← lift (parse_network_hostname_resolution_protocol s);
  assign (set_hostname_resolution_protocol p);;
  s ← vm_string vm "fscp.listen_on";
  ep ← lift (parse_ep_type s);
  assign (set_listen_on ep);;
  n ← vm_uint vm "fscp.hello_timeout";
  assign (set_hello_timeout (to_time_duration n));;
  contact_list ← vm_strings vm "fscp.contact";
  assign (set_contact_list []);;
  foreach contact_list (fun contact =>
    ep ← lift (parse_ep_type contact); push_back_contact ep).

(** Security options: the identity and the validation method (lines 457
    to 475) *)
Definition setup_security_identity (vm : po.variables_map) : M unit :=
  s ← vm_string vm "security.signature_certificate_file";
  signature_certificate ← load_certificate s;
  s ← vm_string vm "security.signature_private_key_file";
  signature_private_key ← load_private_key s;
  encryption_certificate ←
    (if po.count vm "security.encryption_certificate_file"
     then s ← vm_string vm "security.encryption_certificate_file"; load_certificate s
     else mret null_cert);
  encryption_private_key ←
    (if po.count vm "security.encryption_private_key_file"
     then s ← vm_string vm "security.encryption_private_key_file"; load_private_key s
     else mret null_pkey);
  id ← lift (make_identity_store signature_certificate signature_private_key
               encryption_certificate encryption_private_key);
  assign (set_identity id);;
  s ← vm_string vm "security.certificate_validation_method";
  cvm ← lift (to_certificate_validation_method s);
  assign (set_certificate_validation_method cvm).

(** Security options: the certificate authorities (lines 477 to 484) *)
Definition setup_certificate_authority_list (vm : po.variables_map) : M unit :=
  authority_certificate_file_list ← vm_strings vm "security.authority_certificate_file";
  assign (set_certificate_authority_list []);;
  foreach authority_certificate_file_list (fun authority_certificate_file =>
    c ← load_trusted_certificate authority_certificate_file;
    push_back_certificate_authority c).

(** Tap adapter options (lines 487 to 494) *)
Definition setup_tap_adapter_options (vm : po.variables_map) : M unit :=
  b ← vm_bool vm "tap_adapter.enabled";
  assign (set_enabled b);;
  s ← vm_string vm "tap_adapter.ipv4_address_prefix_length";
  a ← lift (parse_optional_ipv4 s);
  assign (set_ipv4_address_prefix_length a);;
  s ← vm_string vm "tap_adapter.ipv6_address_prefix_length";
  a ← lift (parse_optional_ipv6 s);
  assign (set_ipv6_address_prefix_length a);;
  b ← vm_bool vm "tap_adapter.arp_proxy_enabled";
  assign (set_arp_proxy_enabled b);;
  s ← vm_string vm "tap_adapter.arp_proxy_fake_ethernet_address";
  a ← lift (parse_ethernet_address_type s);
  assign (set_arp_proxy_fake_ethernet_address a);;
  b ← vm_bool vm "tap_adapter.dhcp_proxy_enabled";
  assign (set_dhcp_proxy_enabled b);;
  s ← vm_string vm "tap_adapter.dhcp_server_ipv4_address_prefix_length";
  a ← lift (parse_optional_ipv4 s);
  assign (set_dhcp_server_ipv4_address_prefix_length a);;
  s ← vm_string vm "tap_adapter.dhcp_server_ipv6_address_prefix_length";
  a ← lift (parse_optional_ipv6 s);
  assign (set_dhcp_server_ipv6_address_prefix_length a).

(** Switch options (lines 497 and 498) *)
Definition setup_switch_options (vm : po.variables_map) : M unit :=
  s ← vm_string vm "switch.routing_method";
  r ← lift (to_routing_method s);
  assign (set_routing_method r);;
  b ← vm_bool vm "switch.relay_mode_enabled";
  assign (set_relay_mode_enabled b).

Definition setup_configuration (vm : po.variables_map) : M unit :=
  setup_fscp_options vm;;
  setup_security_identity vm;;
  setup_certificate_authority_list vm;;
  setup_tap_adapter_options vm;;
  setup_switch_options vm.

Definition get_certificate_validation_script (vm : po.variables_map) : exception + string :=
  po.as_string (po.get vm "security.certificate_validation_script").

End Configuration_helper.

(** ** The freelan core, as [main] uses it

    The default constructed configuration, and the run of [freelan::core]
    on a configuration and a logger level ([true] for debug): it returns, or
    it throws. *)
Class Core `{Collaborators} := {
  default_configuration : configuration;
  core_run : configuration -> bool -> option exception
}.

(** ** cli.cpp *)
Section Cli.
Context `{Core}.
Variable env : environment.

Definition get_configuration_files : list string :=
  if WINDOWS then
    [ path_append (get_home_directory env) "freelan.cfg";
      path_append (get_application_directory env) "freelan.cfg" ]
  else
    [ path_append (get_home_directory env) ".freelan/freelan.cfg";
      path_append (get_application_directory env) "freelan.cfg" ].

Definition generic_options : po.options_description :=
  [ po.Option_description "help" po.untyped;
    po.Option_description "debug" po.untyped;
    po.Option_description "configuration_file" (po.typed po.K_string None false) ].

Definition configuration_options : po.options_description :=
  (get_fscp_options ++ get_security_options ++ get_tap_adapter_options
     ++ get_switch_options)%list.

Definition visible_options : po.options_description :=
  (generic_options ++ configuration_options)%list.

Definition all_options : po.options_description :=
  (generic_options ++ configuration_options)%list.

(** The loop over the configuration files (lines 153 to 165): the first
    file that opens is stored and ends the loop. *)
Fixpoint probe_configuration_files (configuration_files : list string)
    (vm : po.variables_map) : M po.variables_map :=
  match configuration_files with
  | [] => mret vm
  | conf :: rest =>
      match ifstream env conf with
      | Some lines =>
          emit (ifstream_opened conf true);;
          emit (cout_reading conf);;
          lift (po.store lexical_cast_uint configuration_options
                  (po.parse_config_file lines configuration_options) vm)
      | None =>
          emit (ifstream_opened conf false);;
          probe_configuration_files rest vm
      end
  end.

(** [parse_options] up to the call of [po::notify] (lines 94 to 177): the
    command line is stored, then one configuration file at most. *)
Definition store_sources (args : list (string * list string)) : M po.variables_map :=
  cl ← lift (po.parse_command_line args all_options);
  vm ← lift (po.store lexical_cast_uint all_options cl po.empty_map);
  configuration_file ←
    (if po.count vm "configuration_file"
     then lift (po.as_string (po.get vm "configuration_file"))
     else mret (match getenv env "FREELAN_CONFIGURATION_FILE" with
                | Some val => val
                | None => EmptyString
                end));
  if negb (String.eqb configuration_file EmptyString) then
    emit (cout_reading configuration_file);;
    match ifstream env configuration_file with
    | None =>
        emit (ifstream_opened configuration_file false);;
        throw (reading_file configuration_file)
    | Some lines =>
        emit (ifstream_opened configuration_file true);;
        lift (po.store lexical_cast_uint configuration_options
                (po.parse_config_file lines configuration_options) vm)
    end
  else
    let configuration_read := false in
    let configuration_files := get_configuration_files in
    vm ← probe_configuration_files configuration_files vm;
    (if negb configuration_read
     then emit (cerr_warning configuration_files)
     else mret tt);;
    mret vm.

(** [parse_options] from [po::notify] on (lines 179 to 202). *)
Definition notify_and_setup (vm : po.variables_map) : M bool :=
  match po.notify vm with Some e => throw e | None => mret tt end;;
  if po.count vm "help" then
    emit cout_usage;;
    mret false
  else
    setup_configuration env vm;;
    certificate_validation_script ← lift (get_certificate_validation_script vm);
    (if negb (String.eqb certificate_validation_script EmptyString)
     then assign (set_certificate_validation_callback
                    (callback_script certificate_validation_script))
     else mret tt);;
    (if po.count vm "debug" then set_debug true else mret tt);;
    mret true.

Definition parse_options (args : list (string * list string)) : M bool :=
  vm ← store_sources args; notify_and_setup vm.

Definition EXIT_SUCCESS : Z := 0.
Definition EXIT_FAILURE : Z := 1.

(** [main]: the exit status and the trace of the process.  The
    configuration and the debug flag live in the [try] block; the handler
    sees the exception only. *)
Definition main (args : list (string * list string)) : Z * list event :=
  match parse_options args (State default_configuration false []) with
  | (inr true, st) =>
      let trace :=
        (st_trace st ++ [core_started (st_configuration st) (st_debug st)])%list in
      match core_run (st_configuration st) (st_debug st) with
      | None => (EXIT_SUCCESS, trace)
      | Some ex => (EXIT_FAILURE, (trace ++ [cerr_error ex])%list)
      end
  | (inr false, st) => (EXIT_SUCCESS, st_trace st)
  | (inl ex, st) => (EXIT_FAILURE, (st_trace st ++ [cerr_error ex])%list)
  end.

End Cli.

(** ** A concrete instance, for the examples

    Endpoints, addresses, files, certificates and keys are strings; a
    parser rejects the empty string only, a converter rejects the empty
    file only, a handle is null when it is [None], and the identity store
    keeps what it is given. *)
Module Demo.

Fixpoint index (c : Ascii.ascii) (s : string) (i : N) : option N :=
  match s with
  | EmptyString => None
  | String d rest => if Ascii.eqb c d then Some i else index c rest (i + 1)%N
  end.

Definition digit (c : Ascii.ascii) : option N := index c "0123456789" 0%N.

Fixpoint decimal (s : string) (acc : N) : option N :=
  match s with
  | EmptyString => Some acc
  | String c rest =>
      match digit c with
      | Some d => decimal rest (10 * acc + d)%N
      | None => None
      end
  end.

Definition lexical_cast (s : string) : option N :=
  match s with
  | EmptyString => None
  | _ => match decimal s 0%N with
         | Some n => if (4294967295 <? n)%N then None else Some n
         | None => None
         end
  end.

Definition parse_nonempty (s : string) : exception + string :=
  if String.eqb s EmptyString then inl (library_error "parse") else inr s.

Definition parse_optional (s : string) : exception + option string :=
  if String.eqb s EmptyString then inr None else inr (Some s).

(** The conversion of a credential file: the empty file is no certificate
    and no key. *)
Definition from_pem (f : string) : exception + option string :=
  if String.eqb f EmptyString then inl (library_error "PEM routines: no start line")
  else inr (Some f).

#[export] Instance collaborators : Collaborators := {|
  WINDOWS := false;
  path_append := fun p q => p +:+ "/" +:+ q;
  lexical_cast_uint := lexical_cast;
  ep_type := string;
  ipv4_address_prefix_length_type := string;
  ipv6_address_prefix_length_type := string;
  ethernet_address_type := string;
  parse_ep_type := parse_nonempty;
  parse_ethernet_address_type := parse_nonempty;
  parse_optional_ipv4 := parse_optional;
  parse_optional_ipv6 := parse_optional;
  file := string;
  cert_type := option string;
  pkey := option string;
  null_cert := None;
  null_pkey := None;
  from_certificate := from_pem;
  from_private_key := from_pem;
  from_trusted_certificate := from_pem;
  identity_store := (option string * option string * option string * option string)%type;
  make_identity_store := fun sc sk ec ek => inr (sc, sk, ec, ek)
|}.

Definition initial_configuration : configuration :=
  Configuration
    (Fscp_configuration udp_v4 EmptyString 0%N [])
    (Security_configuration (None, None, None, None) CVM_DEFAULT callback_default [])
    (Tap_adapter_configuration false None None false EmptyString false None None)
    (Switch_configuration RM_SWITCH false).

#[export] Instance core : Core := {|
  default_configuration := initial_configuration;
  core_run := fun _ _ => None
|}.

(** Lookup in a list of named files. *)
Fixpoint lookup_file {A} (l : list (string * A)) (path : string) : option A :=
  match l with
  | [] => None
  | (p, a) :: rest => if String.eqb p path then Some a else lookup_file rest path
  end.

(** A process environment: the value of FREELAN_CONFIGURATION_FILE, the
    configuration files and the credential files on disk. *)
Definition disk (variable : option string)
    (configuration_files : list (string * list (string * string)))
    (credential_files : list (string * string)) : environment :=
  Environment
    (fun name => if String.eqb name "FREELAN_CONFIGURATION_FILE" then variable else None)
    "/home/user" "/opt/freelan"
    (lookup_file configuration_files)
    (fun path => match lookup_file credential_files path with
                 | Some f => inr f
                 | None => inl (runtime_error "fopen")
                 end).

Definition credentials : list (string * string) :=
  [ ("sig.crt", "SIGCERT"); ("sig.key", "SIGKEY");
    ("enc.crt", "ENCCERT"); ("enc.key", "ENCKEY");
    ("ca1.crt", "CA1"); ("ca2.crt", "CA2"); ("ca3.crt", "CA3") ].

Definition signature_arguments : list (string * list string) :=
  [ ("security.signature_certificate_file", ["sig.crt"]);
    ("security.signature_private_key_file", ["sig.key"]) ].

Definition script_arguments : list (string * list string) :=
  (signature_arguments ++ [ ("security.certificate_validation_script", ["check.sh"]) ])%list.

(** The state [main] starts [parse_options] in. *)
Definition start : state := State initial_configuration false [].

(** The variables map of a command line alone. *)
Definition variables (args : list (string * list string)) : po.variables_map :=
  match po.parse_command_line args all_options with
  | inr cl =>
      match po.store lexical_cast all_options cl po.empty_map with
      | inr vm => vm
      | inl _ => po.empty_map
      end
  | inl _ => po.empty_map
  end.

(** The first discovery path of this instance. *)
Definition user_file : string := "/home/user/.freelan/freelan.cfg".

(** No configuration file on disk, no environment variable. *)
Definition bare : environment := disk None [] credentials.

(** A configuration file at the first discovery path. *)
Definition with_user_file : environment :=
  disk None
    [ (user_file,
       [ ("security.signature_certificate_file", "sig.crt");
         ("security.signature_private_key_file", "sig.key");
         ("security.certificate_validation_script", "check.sh");
         ("tap_adapter.enabled", "true") ]) ]
    credentials.

(** The environment variable is set to the empty string. *)
Definition with_empty_variable : environment := disk (Some EmptyString) [] credentials.

Definition list_arguments : list (string * list string) :=
  (script_arguments ++
   [ ("fscp.contact", ["10.0.0.1:12000"; "10.0.0.2:12000"]);
     ("security.authority_certificate_file", ["ca1.crt"; "ca2.crt"]) ])%list.


Definition unreadable_authority_arguments : list (string * list string) :=
  (script_arguments ++
   [ ("security.authority_certificate_file",
      ["ca1.crt"; "ca2.crt"; "missing.crt"; "ca3.crt"]) ])%list.

(** The state [store_sources] leaves. *)
Definition stored (env : environment) (args : list (string * list string)) : state :=
  (store_sources env args start).2.

(** The variables map [store_sources] returns. *)
Definition sources (env : environment) (args : list (string * list string))
  : po.variables_map :=
  match (store_sources env args start).1 with
  | inr vm => vm
  | inl _ => po.empty_map
  end.

(** A configuration file at the first discovery path that names the
    three generic options besides the credentials. *)
Definition with_generic_file : environment :=
  disk None
    [ (user_file,
       [ ("help", "1"); ("debug", "1"); ("configuration_file", "other.cfg");
         ("security.signature_certificate_file", "sig.crt");
         ("security.signature_private_key_file", "sig.key");
         ("security.certificate_validation_script", "check.sh") ]) ]
    credentials.

Definition bogus_protocol_arguments : list (string * list string) :=
  (script_arguments ++ [ ("fscp.hostname_resolution_protocol", ["bogus"]) ])%list.

Definition bad_contact_arguments : list (string * list string) :=
  (script_arguments ++
   [ ("fscp.contact", ["10.0.0.1:12000"; EmptyString; "10.0.0.3:12000"]) ])%list.

Definition help_arguments : list (string * list string) :=
  (script_arguments ++ [ ("help", []) ])%list.

Definition debug_arguments : list (string * list string) :=
  (script_arguments ++ [ ("debug", []) ])%list.

(** A credential file that opens and holds no certificate. *)
Definition with_empty_certificate : environment :=
  disk None [] (("empty.crt", EmptyString) :: credentials).

Definition unconvertible_authority_arguments : list (string * list string) :=
  (script_arguments ++
   [ ("security.authority_certificate_file", ["ca1.crt"; "empty.crt"; "ca3.crt"]) ])%list.

(** A state whose configuration has lists from an earlier use. *)
Definition used : state :=
  State (set_contact_list ["192.168.0.9:12000"]
           (set_certificate_authority_list [Some "OLDCA"] initial_configuration))
    false [].

End Demo.

(** ** Predicates of the statements *)
Section Predicates.
Context `{Collaborators}.
Variable env : environment.

(** The file opens and converts: what a credential loader needs to
    return. *)
Definition loads {A} (convert : file -> exception + A) (filename : string) (a : A) : Prop :=
  exists f, file_open env filename = inr f /\ convert f = inr a.

(** The load of a credential fails with [ex]: the opening throws a
    [std::runtime_error] and [ex] is the error that names the file; or the
    opening throws another exception and [ex] is this exception; or the
    file opens and [ex] is the exception of the conversion. *)
Definition fails_to_load {A} (convert : file -> exception + A) (filename : string)
    (ex : exception) : Prop :=
  (exists what, file_open env filename = inl (runtime_error what) /\
     ex = runtime_error ("Unable to open the specified file: " +:+ filename)) \/
  (file_open env filename = inl ex /\ forall what, ex <> runtime_error what) \/
  (exists f, file_open env filename = inr f /\ convert f = inl ex).

(** An optional credential: loaded from the file the option names when the
    option is in the map, the null handle otherwise; [events] are the
    files opened for it. *)
Definition optionally_loads {A} (convert : file -> exception + A)
    (vm : po.variables_map) (name : string) (null a : A) (events : list event) : Prop :=
  if po.count vm name
  then exists filename, po.as_string (po.get vm name) = inr filename /\
         loads convert filename a /\ events = [file_opened filename]
  else a = null /\ events = [].

(** What a returning run of the identity part has done. *)
Definition identity_loaded (vm : po.variables_map) (id : identity_store)
    (events : list event) : Prop :=
  exists p1 p2 sc sk ec ek ev1 ev2,
    po.as_string (po.get vm "security.signature_certificate_file") = inr p1 /\
    loads from_certificate p1 sc /\
    po.as_string (po.get vm "security.signature_private_key_file") = inr p2 /\
    loads from_private_key p2 sk /\
    optionally_loads from_certificate vm "security.encryption_certificate_file"
      null_cert ec ev1 /\
    optionally_loads from_private_key vm "security.encryption_private_key_file"
      null_pkey ek ev2 /\
    make_identity_store sc sk ec ek = inr id /\
    events = ([file_opened p1; file_opened p2] ++ ev1 ++ ev2)%list.

(** What a returning run of the certificate authority part has done. *)
Definition authorities_loaded (vm : po.variables_map) (cs : list cert_type)
    (events : list event) : Prop :=
  exists l, po.as_strings (po.get vm "security.authority_certificate_file") = inr l /\
    Forall2 (loads from_trusted_certificate) l cs /\
    events = map file_opened l.

(** The option has a value in the map: what [po::notify] asks of a
    required option. *)
Definition resolves (vm : po.variables_map) (name : string) : bool :=
  po.count vm name && negb (po.value_empty (po.get vm name)).

(** The configuration file path that [parse_options] takes from the
    command line or, without one, from the environment. *)
Definition supplied_path (vm : po.variables_map) (path : string) : Prop :=
  (po.count vm "configuration_file" = true /\
   po.as_string (po.get vm "configuration_file") = inr path) \/
  (po.count vm "configuration_file" = false /\
   getenv env "FREELAN_CONFIGURATION_FILE" = Some path).

End Predicates.

(** The names of the required options of the schema. *)
Definition required_names : list string :=
  map po.key (filter (fun d => po.is_required (po.semantic d)) all_options).

(** ** Predicates on runs *)
Section Run_predicates.
Context `{Collaborators}.

Definition is_file_opened (ev : event) : Prop := exists path, ev = file_opened path.

(** The events [parse_options] itself can cause: everything but the start
    of the core and the error report, which are [main]'s. *)
Definition is_parse_event (ev : event) : Prop :=
  match ev with
  | core_started _ _ | cerr_error _ => False
  | _ => True
  end.

(** Whatever its outcome, the computation only appends events of the
    class [P] to the trace. *)
Definition emits {A} (P : event -> Prop) (c : M A) : Prop :=
  forall st, exists events,
    st_trace (c st).2 = (st_trace st ++ events)%list /\ Forall P events.

(** Whatever its outcome, the computation leaves the part [proj] of the
    state as it found it. *)
Definition keeps {A X} (proj : state -> X) (c : M A) : Prop :=
  forall st, proj (c st).2 = proj st.

(** The validation callback of the configuration in a state. *)
Definition callback_of (st : state) : certificate_validation_callback_type :=
  certificate_validation_callback (security (st_configuration st)).

(** The kind of a stored value. *)
Definition has_kind (k : po.kind) (a : po.any) : Prop :=
  match k, a with
  | po.K_string, po.any_string _ => True
  | po.K_bool, po.any_bool _ => True
  | po.K_uint, po.any_uint _ => True
  | po.K_strings, po.any_strings _ => True
  | _, _ => False
  end.

(** The value has the kind its description declares (a flag holds a
    string). *)
Definition well_kinded (s : po.value_semantic) (a : po.any) : Prop :=
  match s with
  | po.untyped => has_kind po.K_string a
  | po.typed k _ _ => has_kind k a
  end.

(** Every value of the map has the kind that the reference description
    declares for its name. *)
Definition kinded (ref : po.options_description) (xm : gmap string po.variable_value)
  : Prop :=
  forall name vv d, xm !! name = Some vv -> po.find_nothrow ref name = Some d ->
    well_kinded (po.semantic d) (po.v vv).

(** A description whose entries are the reference's entries for their
    names, with defaults of the declared kind. *)
Definition agrees (ref desc : po.options_description) : Prop :=
  Forall (fun d =>
            po.find_nothrow ref (po.key d) = Some d /\
            forall def, po.apply_default (po.semantic d) = Some def ->
                        well_kinded (po.semantic d) def) desc.

(** [as<T>()] at the type the description declares returns. *)
Definition reads_as (s : po.value_semantic) (vv : po.variable_value) : Prop :=
  match s with
  | po.untyped | po.typed po.K_string _ _ => exists x, po.as_string vv = inr x
  | po.typed po.K_bool _ _ => exists x, po.as_bool vv = inr x
  | po.typed po.K_uint _ _ => exists x, po.as_uint vv = inr x
  | po.typed po.K_strings _ _ => exists x, po.as_strings vv = inr x
  end.

End Run_predicates.

Section Source_predicates.
Context `{Collaborators}.
Variable env : environment.

(** Neither the command line nor the environment gives [parse_options] a
    path that is not empty: the discovery paths are probed. *)
Definition no_supplied_path (vm : po.variables_map) : Prop :=
  supplied_path env vm EmptyString \/
  (po.count vm "configuration_file" = false /\
   getenv env "FREELAN_CONFIGURATION_FILE" = None).

(** The events of probing paths that do not open. *)
Definition probes (paths : list string) : list event :=
  map (fun path => ifstream_opened path false) paths.

End Source_predicates.

(** * Properties *)

(** ** Runs of the state and exception monad *)
Section Monad_facts.
Context `{Collaborators}.

Lemma bind_run {A B} (c : M A) (k : A -> M B) st :
  (c ≫= k) st =
  match c st with
  | (inr a, st') => k a st'
  | (inl e, st') => (inl e, st')
  end.
Proof. reflexivity. Qed.

Lemma bind_inr {A B} (c : M A) (k : A -> M B) st b st' :
  (c ≫= k) st = (inr b, st') ->
  exists a st1, c st = (inr a, st1) /\ k a st1 = (inr b, st').
Proof.
  rewrite bind_run. destruct (c st) as [[e|a] st1]; [discriminate|]. eauto.
Qed.

Lemma bind_ok {A B} (c : M A) (k : A -> M B) st a st1 r :
  c st = (inr a, st1) -> k a st1 = r -> (c ≫= k) st = r.
Proof. intros Hc Hk. rewrite bind_run, Hc. exact Hk. Qed.

Lemma bind_throw {A B} (c : M A) (k : A -> M B) st e st1 :
  c st = (inl e, st1) -> (c ≫= k) st = (inl e, st1).
Proof. intros Hc. rewrite bind_run, Hc. reflexivity. Qed.

Lemma lift_inr {A} (r : exception + A) st a st' :
  lift r st = (inr a, st') -> r = inr a /\ st' = st.
Proof. unfold lift. intros [= -> ->]. auto. Qed.

Lemma lift_ok {A} (r : exception + A) st a :
  r = inr a -> lift r st = (inr a, st).
Proof. intros ->. reflexivity. Qed.

Lemma assign_inr f st u st' :
  assign f st = (inr u, st') ->
  st' = State (f (st_configuration st)) (st_debug st) (st_trace st).
Proof. unfold assign. intros [= _ <-]. reflexivity. Qed.

Lemma emit_inr ev st u st' :
  emit ev st = (inr u, st') ->
  st' = State (st_configuration st) (st_debug st) (st_trace st ++ [ev])%list.
Proof. unfold emit. intros [= _ <-]. reflexivity. Qed.

Lemma ret_inr {A} (a b : A) st st' :
  (mret a : M A) st = (inr b, st') -> b = a /\ st' = st.
Proof. intros [= -> ->]. auto. Qed.

Lemma foreach_app {A} (l1 l2 : list A) (body : A -> M unit) st :
  foreach (l1 ++ l2)%list body st = (foreach l1 body;; foreach l2 body) st.
Proof.
  revert st. induction l1 as [|x l1 IH]; intros st; [reflexivity|].
  cbn [foreach app]. rewrite !bind_run.
  destruct (body x st) as [[e|[]] st1]; [reflexivity|].
  rewrite IH, bind_run. reflexivity.
Qed.

End Monad_facts.

(** Inversion of a run that returns: one fact per step. *)
Ltac inv_prim H :=
  lazymatch type of H with
  | lift _ _ = (inr _, _) =>
      let E := fresh "E" in apply lift_inr in H as [E ->]
  | assign _ _ = (inr _, _) => apply assign_inr in H as ->
  | emit _ _ = (inr _, _) => apply emit_inr in H as ->
  | mret _ _ = (inr _, _) => apply ret_inr in H as [-> ->]
  | _ => idtac
  end.

Ltac inv_ok H :=
  lazymatch type of H with
  | (_ ≫= _) _ = (inr _, _) =>
      let a := fresh "a" in
      let s := fresh "st" in
      let Hc := fresh "Hc" in
      apply bind_inr in H as (a & s & Hc & H);
      inv_ok Hc; inv_ok H
  | _ => inv_prim H
  end.

(** The assignments are unfolded innermost first; each setter mentions its
    argument once per member. *)
Ltac unfold_setters :=
  cbv [assign emit
    set_hostname_resolution_protocol set_listen_on set_hello_timeout
    set_contact_list set_identity set_certificate_validation_method
    set_certificate_validation_callback set_certificate_authority_list
    set_enabled set_ipv4_address_prefix_length set_ipv6_address_prefix_length
    set_arp_proxy_enabled set_arp_proxy_fake_ethernet_address
    set_dhcp_proxy_enabled set_dhcp_server_ipv4_address_prefix_length
    set_dhcp_server_ipv6_address_prefix_length set_routing_method
    set_relay_mode_enabled with_fscp with_security with_tap_adapter with_switch
    fscp security tap_adapter switch_
    hostname_resolution_protocol listen_on hello_timeout contact_list
    identity certificate_validation_method certificate_validation_callback
    certificate_authority_list
    enabled ipv4_address_prefix_length ipv6_address_prefix_length arp_proxy_enabled
    arp_proxy_fake_ethernet_address dhcp_proxy_enabled
    dhcp_server_ipv4_address_prefix_length dhcp_server_ipv6_address_prefix_length
    routing_method relay_mode_enabled st_configuration st_debug st_trace].

(** A run forward, from the facts in the context. *)
Ltac run_prim :=
  first [ apply lift_ok; eassumption | reflexivity ].

Ltac run_ok :=
  repeat (eapply bind_ok; [ run_prim | cbv beta ]).

(** ** Boost.Program_options: what [store] keeps and what it fills *)
Section Store_facts.
Variable lexical_cast : string -> option N.

#[local] Abbreviation store_options := (po.store_options lexical_cast).

Lemma parse_not_empty name s store tokens a :
  po.parse lexical_cast name s store tokens = inr a -> a <> po.any_empty.
Proof.
  unfold po.parse, po.get_single_string.
  destruct s as [|[] ? ?]; destruct store; try discriminate;
    repeat (match goal with
            | |- context [match ?x with _ => _ end] => destruct x; try discriminate
            end);
    intros [= <-]; discriminate.
Qed.

Lemma parse_occupied name k dflt req store tokens :
  k <> po.K_strings -> store <> po.any_empty ->
  po.parse lexical_cast name (po.typed k dflt req) store tokens =
    inl (multiple_occurrences name).
Proof.
  intros Hk Hs. destruct k; try congruence; destruct store; try congruence; reflexivity.
Qed.

(** The names of [final] keep their value in the first loop. *)
Lemma store_options_final desc opts xm final nf xm' nf' name :
  store_options desc opts xm final nf = inr (xm', nf') ->
  name ∈ final -> xm' !! name = xm !! name.
Proof.
  revert xm nf. induction opts as [|o opts IH]; intros xm nf Hrun Hin.
  - cbn in Hrun. congruence.
  - cbn [po.store_options] in Hrun. cbv zeta in Hrun.
    destruct (String.eqb (po.string_key o) EmptyString); [eauto|].
    destruct (po.unregistered o); [eauto|].
    case_bool_decide as Hfin; [eauto|].
    destruct (po.find_nothrow desc (po.string_key o)); [|discriminate].
    destruct (po.parse _ _ _ _ _); [discriminate|].
    apply IH in Hrun; [|assumption]. rewrite Hrun.
    apply lookup_insert_ne. intros <-. contradiction.
Qed.

(** The first loop removes no name, and every option it does not skip is
    stored and becomes final. *)
Lemma store_options_explicit desc opts xm final nf xm' nf' :
  store_options desc opts xm final nf = inr (xm', nf') ->
  (forall n, is_Some (xm !! n) -> is_Some (xm' !! n)) /\
  (forall n, n ∈ nf -> n ∈ nf') /\
  (forall o, In o opts -> po.string_key o <> EmptyString -> po.unregistered o = false ->
     po.string_key o ∉ final ->
     po.string_key o ∈ nf' /\ is_Some (xm' !! po.string_key o)).
Proof.
  revert xm nf. induction opts as [|o opts IH]; intros xm nf Hrun.
  - cbn in Hrun. injection Hrun as <- <-. repeat split; try done.
  - cbn [po.store_options] in Hrun. cbv zeta in Hrun.
    destruct (String.eqb (po.string_key o) EmptyString) eqn:Hempty.
    { apply IH in Hrun as (Hkeep & Hnf & Hopts). repeat split; try assumption.
      all: destruct H as [<-|Hin]; [|apply (Hopts _ Hin); assumption].
      all: apply String.eqb_eq in Hempty; contradiction. }
    destruct (po.unregistered o) eqn:Hunreg.
    { apply IH in Hrun as (Hkeep & Hnf & Hopts). repeat split; try assumption.
      all: destruct H as [<-|Hin]; [|apply (Hopts _ Hin); assumption].
      all: congruence. }
    case_bool_decide as Hfin.
    { apply IH in Hrun as (Hkeep & Hnf & Hopts). repeat split; try assumption.
      all: destruct H as [<-|Hin]; [|apply (Hopts _ Hin); assumption].
      all: contradiction. }
    destruct (po.find_nothrow desc (po.string_key o)); [|discriminate].
    destruct (po.parse _ _ _ _ _); [discriminate|].
    apply IH in Hrun as (Hkeep & Hnf & Hopts). split; [|split].
    + intros n Hn. apply Hkeep. rewrite lookup_insert. case_decide; [eauto|assumption].
    + intros n Hn. apply Hnf. apply elem_of_union. right. assumption.
    + intros o' [<-|Hin] Hne Hreg Hnotfin.
      * split; [apply Hnf; apply elem_of_union; left; apply elem_of_singleton; reflexivity|]. apply Hkeep. rewrite lookup_insert_eq. eauto.
      * apply Hopts; assumption.
Qed.

(** The second loop fills the names that have no value and leaves the
    others. *)
Lemma store_defaults_lookup desc xm required name :
  is_Some (xm !! name) ->
  (po.store_defaults desc xm required).1 !! name = xm !! name.
Proof.
  revert xm required. induction desc as [|d desc IH]; intros xm required Hsome; [reflexivity|].
  cbn [po.store_defaults]. cbv zeta.
  destruct (xm !! po.key d) eqn:Hd; [apply IH; assumption|].
  destruct (po.apply_default (po.semantic d)); [|apply IH; assumption].
  assert (po.key d <> name) by (intros <-; rewrite Hd in Hsome; destruct Hsome; discriminate).
  rewrite IH; rewrite lookup_insert_ne; done.
Qed.

Lemma store_defaults_keeps desc xm required name :
  is_Some (xm !! name) -> is_Some ((po.store_defaults desc xm required).1 !! name).
Proof. intros Hsome. rewrite store_defaults_lookup; assumption. Qed.

(** The required names after the second loop do not depend on the map. *)
Lemma store_defaults_required desc xm xm' required :
  (po.store_defaults desc xm required).2 = (po.store_defaults desc xm' required).2.
Proof.
  revert xm xm' required. induction desc as [|d desc IH]; intros; [reflexivity|].
  cbn [po.store_defaults]. cbv zeta. apply IH.
Qed.

(** A later [store] does not change a name that is final and has a value:
    the earlier source wins. *)
Lemma store_final desc opts vm vm' name :
  po.store lexical_cast desc opts vm = inr vm' ->
  name ∈ po.m_final vm -> po.count vm name = true ->
  po.get vm' name = po.get vm name /\ po.count vm' name = true /\
  name ∈ po.m_final vm'.
Proof.
  unfold po.store, po.get, po.count. intros Hrun Hfin Hcount.
  apply bool_decide_eq_true in Hcount.
  destruct (po.store_options _ _ _ _ _ _) as [e|[xm nf]] eqn:Hopts; [discriminate|].
  destruct (po.store_defaults desc xm (po.m_required vm)) as [xm2 required] eqn:Hdef.
  injection Hrun as <-. cbn.
  pose proof (store_options_final _ _ _ _ _ _ _ _ Hopts Hfin) as Hkeep.
  assert (is_Some (xm !! name)) as Hsome by (rewrite Hkeep; assumption).
  pose proof (store_defaults_lookup desc xm (po.m_required vm) name Hsome) as Hdef'.
  rewrite Hdef in Hdef'. cbn in Hdef'. rewrite Hdef', Hkeep.
  split; [reflexivity|]. split; [|apply elem_of_union; left; assumption].
  apply bool_decide_eq_true. rewrite <- Hkeep. assumption.
Qed.

Lemma find_nothrow_key desc name d :
  po.find_nothrow desc name = Some d -> po.key d = name.
Proof.
  induction desc as [|d' desc IH]; [discriminate|]. cbn.
  destruct (String.eqb (po.key d') name) eqn:Heq; [|assumption].
  intros [= <-]. apply String.eqb_eq. assumption.
Qed.

(** A single-valued option that already has an explicit value makes the
    first loop throw at its next occurrence; so a loop that returns has met
    no further occurrence, and the value is still there. *)
Lemma store_options_occupied desc opts xm final nf xm' nf' name d k dflt req a :
  store_options desc opts xm final nf = inr (xm', nf') ->
  po.find_nothrow desc name = Some d -> po.semantic d = po.typed k dflt req ->
  k <> po.K_strings -> name <> EmptyString -> name ∉ final ->
  xm !! name = Some (po.Variable_value a false) -> a <> po.any_empty ->
  xm' !! name = Some (po.Variable_value a false) /\
  forall o, In o opts -> po.string_key o = name -> po.unregistered o = true.
Proof.
  intros Hrun Hfind Hsem Hk Hne Hnotfin. revert xm nf Hrun.
  induction opts as [|o opts IH]; intros xm nf Hrun Hxm Ha.
  - cbn in Hrun. injection Hrun as <- <-. split; [assumption|]. intros o [].
  - cbn [po.store_options] in Hrun. cbv zeta in Hrun.
    destruct (String.eqb (po.string_key o) EmptyString) eqn:Hempty.
    { apply IH in Hrun as [Hkeep Hrest]; [|assumption..]. split; [assumption|].
      intros o' [<-|Hin] Hkey; [|eauto]. apply String.eqb_eq in Hempty. congruence. }
    destruct (po.unregistered o) eqn:Hunreg.
    { apply IH in Hrun as [Hkeep Hrest]; [|assumption..]. split; [assumption|].
      intros o' [<-|Hin] Hkey; [assumption|eauto]. }
    case_bool_decide as Hfin.
    { apply IH in Hrun as [Hkeep Hrest]; [|assumption..]. split; [assumption|].
      intros o' [<-|Hin] Hkey; [|eauto]. congruence. }
    destruct (decide (po.string_key o = name)) as [Hsame|Hother].
    + rewrite Hsame, Hfind, Hxm, Hsem in Hrun. cbn -[po.parse] in Hrun.
      rewrite parse_occupied in Hrun by assumption. discriminate.
    + destruct (po.find_nothrow desc (po.string_key o)); [|discriminate].
      destruct (po.parse _ _ _ _ _); [discriminate|].
      apply IH in Hrun as [Hkeep Hrest]; [| rewrite lookup_insert_ne; assumption | assumption].
      split; [assumption|]. intros o' [<-|Hin] Hkey; [contradiction|eauto].
Qed.

(** An occurrence of a single-valued option that the first loop does not
    skip, when the loop returns, is the only one, and the map holds the
    value of its tokens. *)
Lemma store_options_single desc opts xm final nf xm' nf' name tokens d k dflt req :
  store_options desc opts xm final nf = inr (xm', nf') ->
  In (po.Basic_option name tokens false) opts ->
  po.find_nothrow desc name = Some d -> po.semantic d = po.typed k dflt req ->
  k <> po.K_strings -> name <> EmptyString -> name ∉ final ->
  (forall vv, xm !! name = Some vv -> po.m_defaulted vv = true) ->
  exists a, po.parse lexical_cast name (po.typed k dflt req) po.any_empty tokens = inr a /\
    xm' !! name = Some (po.Variable_value a false).
Proof.
  intros Hrun Hin Hfind Hsem Hk Hne Hnotfin. revert xm nf Hrun Hin.
  induction opts as [|o opts IH]; intros xm nf Hrun Hin Hxm; [destruct Hin|].
  cbn [po.store_options] in Hrun. cbv zeta in Hrun.
  destruct (String.eqb (po.string_key o) EmptyString) eqn:Hempty.
  { destruct Hin as [->|Hin]; [|eauto]. apply String.eqb_eq in Hempty. contradiction. }
  destruct (po.unregistered o) eqn:Hunreg.
  { destruct Hin as [->|Hin]; [discriminate|eauto]. }
  case_bool_decide as Hfin.
  { destruct Hin as [->|Hin]; [contradiction|eauto]. }
  destruct (decide (po.string_key o = name)) as [Hsame|Hother].
  - rewrite Hsame, Hfind, Hsem in Hrun.
    assert (po.v (if po.m_defaulted (default po.empty_value (xm !! name))
                  then po.empty_value else default po.empty_value (xm !! name))
            = po.any_empty) as Hstore.
    { destruct (xm !! name) as [vv|] eqn:Hvv; cbn; [|reflexivity].
      rewrite (Hxm vv) by reflexivity. reflexivity. }
    assert (po.m_defaulted (if po.m_defaulted (default po.empty_value (xm !! name))
                  then po.empty_value else default po.empty_value (xm !! name))
            = false) as Hdefaulted.
    { destruct (xm !! name) as [vv|] eqn:Hvv; cbn; [|reflexivity].
      rewrite (Hxm vv) by reflexivity. reflexivity. }
    rewrite Hstore, Hdefaulted in Hrun.
    destruct (po.parse lexical_cast name (po.typed k dflt req) po.any_empty (po.value o))
      as [e|a] eqn:Hparse; [discriminate|].
    eapply store_options_occupied in Hrun as [Hkeep Hrest]; try eassumption.
    2: apply lookup_insert_eq.
    2: eapply parse_not_empty; eassumption.
    destruct Hin as [->|Hin].
    + exists a. split; assumption.
    + specialize (Hrest _ Hin eq_refl). cbn in Hrest. discriminate.
  - destruct Hin as [->|Hin]; [contradiction|].
    destruct (po.find_nothrow desc (po.string_key o)); [|discriminate].
    match type of Hrun with
    | context [po.parse ?a ?b ?c ?d ?e] => destruct (po.parse a b c d e)
    end; [discriminate|].
    eapply IH; [eassumption|assumption|].
    rewrite lookup_insert_ne; assumption.
Qed.

End Store_facts.

(** ** The parts of [setup_configuration] *)
Section Setup_facts.
Context `{Collaborators}.
Variable env : environment.

Lemma load_file_inr filename st f st' :
  load_file env filename st = (inr f, st') ->
  file_open env filename = inr f /\
  st' = State (st_configuration st) (st_debug st) (st_trace st ++ [file_opened filename])%list.
Proof.
  unfold load_file. intros Hrun. inv_ok Hrun. revert Hrun.
  destruct (file_open env filename) as [[]|f']; try discriminate.
  intros Hrun. apply ret_inr in Hrun as [-> ->]. auto.
Qed.

Lemma load_file_ok filename st f :
  file_open env filename = inr f ->
  load_file env filename st =
    (inr f, State (st_configuration st) (st_debug st)
              (st_trace st ++ [file_opened filename])%list).
Proof.
  intros Hopen. unfold load_file. eapply bind_ok; [reflexivity|].
  cbv beta. rewrite Hopen. reflexivity.
Qed.

Lemma load_file_unreadable filename st what :
  file_open env filename = inl (runtime_error what) ->
  load_file env filename st =
    (inl (runtime_error ("Unable to open the specified file: " +:+ filename)),
     State (st_configuration st) (st_debug st)
       (st_trace st ++ [file_opened filename])%list).
Proof.
  intros Hopen. unfold load_file. eapply bind_ok; [reflexivity|].
  cbv beta. rewrite Hopen. reflexivity.
Qed.

Lemma load_with_inr {A} (convert : file -> exception + A) filename st a st' :
  (f ← load_file env filename; lift (convert f)) st = (inr a, st') ->
  loads env convert filename a /\
  st' = State (st_configuration st) (st_debug st) (st_trace st ++ [file_opened filename])%list.
Proof.
  intros Hrun. apply bind_inr in Hrun as (f & st1 & Hf & Hrun).
  apply load_file_inr in Hf as [Hopen ->]. apply lift_inr in Hrun as [Hc ->].
  split; [exists f; auto | reflexivity].
Qed.

Lemma load_with_ok {A} (convert : file -> exception + A) filename st a :
  loads env convert filename a ->
  (f ← load_file env filename; lift (convert f)) st =
    (inr a, State (st_configuration st) (st_debug st)
              (st_trace st ++ [file_opened filename])%list).
Proof.
  intros (f & Hopen & Hc). eapply bind_ok; [apply load_file_ok; eassumption|].
  apply lift_ok. exact Hc.
Qed.

Lemma set_contact_list_id c :
  set_contact_list (contact_list (fscp c)) c = c.
Proof. destruct c as [[] ? ? ?]. reflexivity. Qed.

Lemma set_contact_list_twice x y c :
  set_contact_list x (set_contact_list y c) = set_contact_list x c.
Proof. destruct c as [[] ? ? ?]. reflexivity. Qed.

Lemma set_certificate_authority_list_id c :
  set_certificate_authority_list (certificate_authority_list (security c)) c = c.
Proof. destruct c as [? [] ? ?]. reflexivity. Qed.

Lemma set_certificate_authority_list_twice x y c :
  set_certificate_authority_list x (set_certificate_authority_list y c) =
  set_certificate_authority_list x c.
Proof. destruct c as [? [] ? ?]. reflexivity. Qed.

#[local] Abbreviation contact_body :=
  (fun contact : string => ep ← lift (parse_ep_type contact); push_back_contact ep).

#[local] Abbreviation authority_body :=
  (fun authority_certificate_file : string =>
     c ← load_trusted_certificate env authority_certificate_file;
     push_back_certificate_authority c).

(** The loop over the contacts, when it returns, has parsed every contact
    and appended the endpoints in order, from whatever state it starts. *)
Lemma contact_loop_inr l st st' :
  foreach l contact_body st = (inr tt, st') ->
  exists eps, Forall2 (fun s ep => parse_ep_type s = inr ep) l eps /\
    forall sa, foreach l contact_body sa =
      (inr tt, State (set_contact_list
                        (contact_list (fscp (st_configuration sa)) ++ eps)
                        (st_configuration sa))
                 (st_debug sa) (st_trace sa)).
Proof.
  revert st. induction l as [|x l IH]; intros st Hrun.
  - exists []. split; [constructor|]. intros [c d t]. cbn.
    rewrite app_nil_r, set_contact_list_id. reflexivity.
  - cbn [foreach] in Hrun. apply bind_inr in Hrun as ([] & st1 & Hx & Hrun).
    unfold push_back_contact in Hx. inv_ok Hx.
    apply IH in Hrun as (eps & Hall & Hloop).
    exists (a :: eps). split; [constructor; assumption|].
    intros sa. cbn [foreach]. eapply bind_ok.
    + unfold push_back_contact. run_ok. reflexivity.
    + rewrite Hloop. cbn. rewrite set_contact_list_twice.
      destruct sa as [[[] ? ? ?] ? ?]. cbn. rewrite <- app_assoc. reflexivity.
Qed.

Lemma authority_loop_ok l cs sa :
  Forall2 (loads env from_trusted_certificate) l cs ->
  foreach l authority_body sa =
    (inr tt, State (set_certificate_authority_list
                      (certificate_authority_list (security (st_configuration sa)) ++ cs)
                      (st_configuration sa))
               (st_debug sa) (st_trace sa ++ map file_opened l)).
Proof.
  intros Hall. revert sa. induction Hall as [|x c l cs Hx Hall IH]; intros sa.
  - destruct sa as [c d t]. cbn. rewrite !app_nil_r, set_certificate_authority_list_id.
    reflexivity.
  - cbn [foreach]. eapply bind_ok.
    + unfold load_trusted_certificate, push_back_certificate_authority.
      eapply bind_ok; [apply load_with_ok; eassumption|]. reflexivity.
    + rewrite IH. cbn. rewrite set_certificate_authority_list_twice.
      destruct sa as [[? [] ? ?] ? ?]. cbn. rewrite <- !app_assoc. reflexivity.
Qed.

Lemma authority_loop_inr l st st' :
  foreach l authority_body st = (inr tt, st') ->
  exists cs, Forall2 (loads env from_trusted_certificate) l cs.
Proof.
  revert st. induction l as [|x l IH]; intros st Hrun.
  - exists []. constructor.
  - cbn [foreach] in Hrun. apply bind_inr in Hrun as ([] & st1 & Hx & Hrun).
    unfold load_trusted_certificate in Hx.
    apply bind_inr in Hx as (c & st2 & Hc & _).
    apply load_with_inr in Hc as [Hc _].
    apply IH in Hrun as (cs & Hall). exists (c :: cs). constructor; assumption.
Qed.

(** Each part, when it returns from one state, returns from every state,
    and assigns the same values to its members of the aggregate. *)
Lemma setup_fscp_options_inr vm st st' :
  setup_fscp_options vm st = (inr tt, st') ->
  exists F, forall sa, setup_fscp_options vm sa =
    (inr tt, State (with_fscp (fun _ => F) (st_configuration sa))
               (st_debug sa) (st_trace sa)).
Proof.
  unfold setup_fscp_options, vm_string, vm_uint, vm_strings. intros Hrun.
  inv_ok Hrun. apply contact_loop_inr in Hrun as (eps & _ & Hloop).
  eexists. intros sa. run_ok. rewrite Hloop.
  unfold_setters. reflexivity.
Qed.

Lemma setup_tap_adapter_options_inr vm st st' :
  setup_tap_adapter_options vm st = (inr tt, st') ->
  exists T, po.as_bool (po.get vm "tap_adapter.enabled") = inr (enabled T) /\
    forall sa, setup_tap_adapter_options vm sa =
      (inr tt, State (with_tap_adapter (fun _ => T) (st_configuration sa))
                 (st_debug sa) (st_trace sa)).
Proof.
  unfold setup_tap_adapter_options, vm_string, vm_bool. intros Hrun.
  inv_ok Hrun. eexists. split; cycle 1.
  - intros sa. run_ok. unfold_setters. reflexivity.
  - cbn. assumption.
Qed.

Lemma setup_switch_options_inr vm st st' :
  setup_switch_options vm st = (inr tt, st') ->
  exists S, forall sa, setup_switch_options vm sa =
    (inr tt, State (with_switch (fun _ => S) (st_configuration sa))
               (st_debug sa) (st_trace sa)).
Proof.
  unfold setup_switch_options, vm_string, vm_bool. intros Hrun.
  inv_ok Hrun. eexists. intros sa. run_ok.
  unfold_setters. reflexivity.
Qed.

Lemma optional_load_inr {A} (convert : file -> exception + A) vm name null st a st' :
  (if po.count vm name
   then s ← vm_string vm name; (f ← load_file env s; lift (convert f))
   else mret null) st = (inr a, st') ->
  exists ev, optionally_loads env convert vm name null a ev /\
    forall sa,
      (if po.count vm name
       then s ← vm_string vm name; (f ← load_file env s; lift (convert f))
       else mret null) sa =
      (inr a, State (st_configuration sa) (st_debug sa) (st_trace sa ++ ev)).
Proof.
  unfold optionally_loads, vm_string. destruct (po.count vm name); intros Hrun.
  - apply bind_inr in Hrun as (filename & st1 & Hs & Hrun).
    apply lift_inr in Hs as [Hs ->].
    apply load_with_inr in Hrun as [Hload _].
    exists [file_opened filename]. split; [eauto|].
    intros sa. eapply bind_ok; [apply lift_ok; eassumption|].
    apply load_with_ok. assumption.
  - apply ret_inr in Hrun as [-> _]. exists []. split; [auto|].
    intros [c d t]. cbn. rewrite app_nil_r. reflexivity.
Qed.

Lemma setup_security_identity_inr vm st st' :
  setup_security_identity env vm st = (inr tt, st') ->
  exists id cvm events, identity_loaded env vm id events /\
    forall sa, setup_security_identity env vm sa =
      (inr tt,
       State (with_security (fun s =>
                Security_configuration id cvm (certificate_validation_callback s)
                  (certificate_authority_list s)) (st_configuration sa))
         (st_debug sa) (st_trace sa ++ events)).
Proof.
  unfold setup_security_identity, load_certificate, load_private_key. intros Hrun.
  apply bind_inr in Hrun as (p1 & s1 & Hp1 & Hrun). apply lift_inr in Hp1 as [Hp1 ->].
  apply bind_inr in Hrun as (sc & s1 & Hsc & Hrun). apply load_with_inr in Hsc as [Hsc ->].
  apply bind_inr in Hrun as (p2 & s1 & Hp2 & Hrun). apply lift_inr in Hp2 as [Hp2 ->].
  apply bind_inr in Hrun as (sk & s1 & Hsk & Hrun). apply load_with_inr in Hsk as [Hsk ->].
  apply bind_inr in Hrun as (ec & s1 & Hec & Hrun).
  apply optional_load_inr in Hec as (ev1 & Hec & Hec_run).
  apply bind_inr in Hrun as (ek & s2 & Hek & Hrun).
  apply optional_load_inr in Hek as (ev2 & Hek & Hek_run).
  unfold vm_string in Hrun. inv_ok Hrun.
  eexists _, _, ([file_opened p1; file_opened p2] ++ ev1 ++ ev2)%list. split.
  { exists p1, p2, sc, sk, ec, ek, ev1, ev2. repeat split; eassumption. }
  intros sa.
  eapply bind_ok; [apply lift_ok; eassumption|]. cbv beta.
  eapply bind_ok; [apply load_with_ok; eassumption|]. cbv beta.
  eapply bind_ok; [apply lift_ok; eassumption|]. cbv beta.
  eapply bind_ok; [apply load_with_ok; eassumption|]. cbv beta.
  eapply bind_ok; [apply Hec_run|]. cbv beta.
  eapply bind_ok; [apply Hek_run|]. cbv beta.
  unfold vm_string. run_ok.
  unfold_setters.
  rewrite <- !app_assoc. reflexivity.
Qed.

Lemma setup_certificate_authority_list_inr vm st st' :
  setup_certificate_authority_list env vm st = (inr tt, st') ->
  exists cs events, authorities_loaded env vm cs events /\
    forall sa, setup_certificate_authority_list env vm sa =
      (inr tt, State (set_certificate_authority_list cs (st_configuration sa))
                 (st_debug sa) (st_trace sa ++ events)).
Proof.
  unfold setup_certificate_authority_list, vm_strings. intros Hrun.
  inv_ok Hrun. apply authority_loop_inr in Hrun as (cs & Hall).
  exists cs, (map file_opened a). split; [exists a; auto|].
  intros sa. run_ok. rewrite (authority_loop_ok _ cs) by assumption.
  reflexivity.
Qed.

(** [setup_configuration], when it returns from one state, returns from
    every state; it assigns every member but the validation callback, and
    the values do not depend on the state. *)
Lemma setup_configuration_inr vm st st' :
  setup_configuration env vm st = (inr tt, st') ->
  exists F id cvm cs T S ev1 ev2,
    identity_loaded env vm id ev1 /\
    authorities_loaded env vm cs ev2 /\
    po.as_bool (po.get vm "tap_adapter.enabled") = inr (enabled T) /\
    forall sa, setup_configuration env vm sa =
      (inr tt,
       State (Configuration F
                (Security_configuration id cvm
                   (certificate_validation_callback (security (st_configuration sa))) cs)
                T S)
         (st_debug sa) (st_trace sa ++ ev1 ++ ev2)).
Proof.
  unfold setup_configuration. intros Hrun.
  apply bind_inr in Hrun as ([] & s1 & H1 & Hrun).
  apply setup_fscp_options_inr in H1 as (F & H1).
  apply bind_inr in Hrun as ([] & s2 & H2 & Hrun).
  apply setup_security_identity_inr in H2 as (id & cvm & ev1 & Hid & H2).
  apply bind_inr in Hrun as ([] & s3 & H3 & Hrun).
  apply setup_certificate_authority_list_inr in H3 as (cs & ev2 & Hcs & H3).
  apply bind_inr in Hrun as ([] & s4 & H4 & Hrun).
  apply setup_tap_adapter_options_inr in H4 as (T & Hen & H4).
  apply setup_switch_options_inr in Hrun as (S & H5).
  exists F, id, cvm, cs, T, S, ev1, ev2. repeat split; try assumption.
  intros sa.
  eapply bind_ok; [apply H1|]. eapply bind_ok; [apply H2|].
  eapply bind_ok; [apply H3|]. eapply bind_ok; [apply H4|].
  rewrite H5. unfold_setters.
  rewrite <- app_assoc. reflexivity.
Qed.

End Setup_facts.

(** ** The sources of [parse_options] *)
Section Cli_facts.
Context `{Core}.
Variable env : environment.

#[local] Abbreviation the_signature_certificate := "security.signature_certificate_file".
#[local] Abbreviation the_signature_private_key := "security.signature_private_key_file".

Lemma required_names_eq :
  required_names = [the_signature_certificate; the_signature_private_key].
Proof. reflexivity. Qed.

Lemma parse_command_line_inr args desc cl :
  po.parse_command_line args desc = inr cl ->
  cl = map (fun a => po.Basic_option a.1 a.2 false) args /\
  forall name, In name (map fst args) -> is_Some (po.find_nothrow desc name).
Proof.
  revert cl. induction args as [|[name tokens] args IH]; intros cl Hrun.
  - cbn in Hrun. injection Hrun as <-. split; [reflexivity|]. intros name [].
  - cbn [po.parse_command_line] in Hrun.
    destruct (po.find_nothrow desc name) eqn:Hfind; [|discriminate].
    destruct (po.parse_command_line args desc) as [e|l]; [discriminate|].
    injection Hrun as <-. destruct (IH l eq_refl) as [-> Hall].
    split; [reflexivity|]. intros n Hin. cbn in Hin.
    destruct Hin as [<-|Hin]; [rewrite Hfind; eauto|auto].
Qed.

Lemma store_required desc opts vm vm' :
  po.store lexical_cast_uint desc opts vm = inr vm' ->
  po.m_required vm' = (po.store_defaults desc ∅ (po.m_required vm)).2.
Proof.
  unfold po.store. intros Hrun.
  destruct (po.store_options _ _ _ _ _ _) as [e|[xm nf]]; [discriminate|].
  rewrite (store_defaults_required desc ∅ xm).
  destruct (po.store_defaults desc xm (po.m_required vm)). injection Hrun as <-.
  reflexivity.
Qed.

Lemma probe_configuration_files_inr files vm1 st vm st' :
  probe_configuration_files env files vm1 st = (inr vm, st') ->
  vm = vm1 \/
  exists lines,
    po.store lexical_cast_uint configuration_options
      (po.parse_config_file lines configuration_options) vm1 = inr vm.
Proof.
  revert st. induction files as [|conf files IH]; intros st Hrun.
  - apply ret_inr in Hrun as [-> _]. left. reflexivity.
  - cbn [probe_configuration_files] in Hrun.
    destruct (ifstream env conf) as [lines|].
    + inv_ok Hrun. right. exists lines. assumption.
    + apply bind_inr in Hrun as (? & ? & _ & Hrun). eauto.
Qed.

(** What a returning [store_sources] has stored: the command line, then
    one configuration file at most. *)
Lemma store_sources_inr args st vm st' :
  store_sources env args st = (inr vm, st') ->
  exists cl vm1,
    po.parse_command_line args all_options = inr cl /\
    po.store lexical_cast_uint all_options cl po.empty_map = inr vm1 /\
    (vm = vm1 \/
     exists lines,
       po.store lexical_cast_uint configuration_options
         (po.parse_config_file lines configuration_options) vm1 = inr vm).
Proof.
  unfold store_sources. intros Hrun.
  apply bind_inr in Hrun as (cl & s1 & Hcl & Hrun). apply lift_inr in Hcl as [Hcl ->].
  apply bind_inr in Hrun as (vm1 & s1 & Hvm1 & Hrun). apply lift_inr in Hvm1 as [Hvm1 ->].
  apply bind_inr in Hrun as (path & s1 & _ & Hrun).
  exists cl, vm1. split; [assumption|]. split; [assumption|].
  destruct (negb (String.eqb path EmptyString)).
  - apply bind_inr in Hrun as (? & s2 & _ & Hrun).
    destruct (ifstream env path) as [lines|].
    + inv_ok Hrun. right. exists lines. assumption.
    + apply bind_inr in Hrun as (? & ? & _ & Hrun). discriminate.
  - cbv zeta in Hrun. apply bind_inr in Hrun as (vm2 & s2 & Hprobe & Hrun).
    apply probe_configuration_files_inr in Hprobe.
    inv_ok Hrun. assumption.
Qed.

Lemma store_sources_required args st vm st' :
  store_sources env args st = (inr vm, st') ->
  po.m_required vm = required_names.
Proof.
  intros Hrun. apply store_sources_inr in Hrun as (cl & vm1 & _ & Hvm1 & Hvm).
  apply store_required in Hvm1.
  destruct Hvm as [->|(lines & Hvm)]; [exact Hvm1|].
  apply store_required in Hvm. rewrite Hvm, Hvm1. reflexivity.
Qed.

(** The command line wins: a name of the command line has, after
    [store_sources], the value and the finality the command line gave it. *)
Lemma store_sources_command_line args st vm st' cl vm1 name :
  po.parse_command_line args all_options = inr cl ->
  po.store lexical_cast_uint all_options cl po.empty_map = inr vm1 ->
  store_sources env args st = (inr vm, st') ->
  In name (map fst args) ->
  po.get vm name = po.get vm1 name /\ po.count vm name = true.
Proof.
  intros Hcl Hvm1 Hrun Hin.
  apply store_sources_inr in Hrun as (cl' & vm1' & Hcl' & Hvm1' & Hvm).
  rewrite Hcl in Hcl'. injection Hcl' as <-. rewrite Hvm1 in Hvm1'. injection Hvm1' as <-.
  assert (name ∈ po.m_final vm1 /\ po.count vm1 name = true) as [Hfinal Hcount].
  { apply parse_command_line_inr in Hcl as [-> Hfound].
    pose proof (Hfound _ Hin) as Hsome.
    unfold po.store in Hvm1. cbn [po.m po.m_final po.m_required po.empty_map] in Hvm1.
    destruct (po.store_options _ _ _ _ _ _) as [e|[xm nf]] eqn:Hopts; [discriminate|].
    destruct (po.store_defaults all_options xm []) as [xm2 required] eqn:Hdef.
    injection Hvm1 as <-. unfold po.count. cbn.
    apply store_options_explicit in Hopts as (_ & _ & Hopts).
    apply in_map_iff in Hin as ([n tokens] & <- & Hin).
    destruct (Hopts (po.Basic_option n tokens false)) as [Hnf Hxm].
    - apply in_map_iff. exists (n, tokens). split; [reflexivity|assumption].
    - cbn. intros ->. destruct Hsome as [d Hd]. discriminate.
    - reflexivity.
    - cbn. apply not_elem_of_empty.
    - split; [apply elem_of_union; right; exact Hnf|].
      apply bool_decide_eq_true.
      pose proof (store_defaults_keeps all_options xm [] n Hxm) as Hkeep.
      rewrite Hdef in Hkeep. exact Hkeep. }
  destruct Hvm as [->|(lines & Hvm)]; [auto|].
  eapply store_final in Hvm as (Hget & Hc & _); eauto.
Qed.

End Cli_facts.

(** ** The claims *)
Section Claims.
Context `{Core}.

(** C5 (as amended): the hostname resolution converter maps the tokens
    system_default and ipv4 to the IPv4 protocol and the token ipv6 to the
    IPv6 protocol, and throws a runtime error that quotes the string for
    every other string. *)
Theorem hostname_resolution_protocol_tokens :
  parse_network_hostname_resolution_protocol "system_default" = inr udp_v4 /\
  parse_network_hostname_resolution_protocol "ipv4" = inr udp_v4 /\
  parse_network_hostname_resolution_protocol "ipv6" = inr udp_v6 /\
  forall str, str <> "system_default" -> str <> "ipv4" -> str <> "ipv6" ->
    parse_network_hostname_resolution_protocol str =
      inl (runtime_error
             (quote +:+ str +:+ quote +:+ " is not a valid hostname resolution protocol")).
Proof.
  repeat split. intros str H1 H2 H3. unfold parse_network_hostname_resolution_protocol.
  apply String.eqb_neq in H1, H2, H3. rewrite H1, H2, H3. reflexivity.
Qed.

(** What [notify_and_setup] has done when it returns [true]. *)
Lemma notify_and_setup_true env vm st st' :
  notify_and_setup env vm st = (inr true, st') ->
  po.count vm "help" = false /\
  exists s2,
    setup_configuration env vm st = (inr tt, s2) /\
    tap_adapter (st_configuration st') = tap_adapter (st_configuration s2) /\
    fscp (st_configuration st') = fscp (st_configuration s2) /\
    st_trace st' = st_trace s2.
Proof.
  unfold notify_and_setup. intros Hrun.
  apply bind_inr in Hrun as ([] & s1 & Hnotify & Hrun).
  destruct (po.notify vm); [discriminate|]. apply ret_inr in Hnotify as [_ ->].
  destruct (po.count vm "help").
  { apply bind_inr in Hrun as (? & ? & _ & Hrun). discriminate. }
  split; [reflexivity|].
  apply bind_inr in Hrun as ([] & s2 & Hsetup & Hrun).
  exists s2. split; [assumption|].
  apply bind_inr in Hrun as (script & s3 & Hscript & Hrun).
  apply lift_inr in Hscript as [_ ->].
  apply bind_inr in Hrun as ([] & s3 & Hcallback & Hrun).
  apply bind_inr in Hrun as ([] & s4 & Hdebug & Hrun).
  apply ret_inr in Hrun as [_ ->].
  assert (tap_adapter (st_configuration s3) = tap_adapter (st_configuration s2) /\
          fscp (st_configuration s3) = fscp (st_configuration s2) /\
          st_trace s3 = st_trace s2) as (Ht3 & Hf3 & Htr3).
  { destruct (negb _).
    - apply assign_inr in Hcallback as ->. auto.
    - apply ret_inr in Hcallback as [_ ->]. auto. }
  destruct (po.count vm "debug").
  - unfold set_debug in Hdebug. injection Hdebug as <-. auto.
  - apply ret_inr in Hdebug as [_ ->]. auto.
Qed.

(** C2: the command line wins.  A name set on the command line has, after
    the sources are stored, the value the command line gave it, whatever a
    configuration file says; and a command line with
    tap_adapter.enabled=false gives an aggregate whose tap adapter is not
    enabled, whatever the configuration file says. *)
Theorem command_line_wins env args st :
  (forall cl vm1 vm st' name,
     po.parse_command_line args all_options = inr cl ->
     po.store lexical_cast_uint all_options cl po.empty_map = inr vm1 ->
     store_sources env args st = (inr vm, st') ->
     In name (map fst args) ->
     po.get vm name = po.get vm1 name) /\
  (forall st',
     In ("tap_adapter.enabled", ["false"]) args ->
     parse_options env args st = (inr true, st') ->
     enabled (tap_adapter (st_configuration st')) = false).
Proof.
  split.
  { intros cl vm1 vm st' name Hcl Hvm1 Hrun Hin.
    eapply store_sources_command_line; eassumption. }
  intros st' Hin Hrun. unfold parse_options in Hrun.
  apply bind_inr in Hrun as (vm & s1 & Hsrc & Hrun).
  destruct (store_sources_inr env args st vm s1 Hsrc) as (cl & vm1 & Hcl & Hvm1 & _).
  assert (po.get vm1 "tap_adapter.enabled" =
          po.Variable_value (po.any_bool false) false) as Hvalue.
  { pose proof Hcl as Hcl'. apply parse_command_line_inr in Hcl' as [-> _].
    unfold po.store in Hvm1. cbn [po.m po.m_final po.m_required po.empty_map] in Hvm1.
    destruct (po.store_options _ _ _ _ _ _) as [e|[xm nf]] eqn:Hopts; [discriminate|].
    destruct (po.store_defaults all_options xm []) as [xm2 required] eqn:Hdef.
    injection Hvm1 as <-.
    eapply (store_options_single _ _ _ _ _ _ _ _ "tap_adapter.enabled" ["false"]
              (po.Option_description "tap_adapter.enabled"
                 (po.typed po.K_bool (Some (po.any_bool true)) false))
              po.K_bool (Some (po.any_bool true)) false)
      in Hopts as (a & Hparse & Hxm).
    - vm_compute in Hparse. injection Hparse as <-.
      pose proof (store_defaults_lookup all_options xm [] "tap_adapter.enabled") as Hkeep.
      rewrite Hdef in Hkeep. unfold po.get. cbn [po.m].
      cbn [fst] in Hkeep. rewrite Hkeep by (rewrite Hxm; eauto). rewrite Hxm. reflexivity.
    - apply in_map_iff. exists ("tap_adapter.enabled", ["false"]). split; [reflexivity|assumption].
    - reflexivity.
    - reflexivity.
    - discriminate.
    - discriminate.
    - apply not_elem_of_empty.
    - intros vv Hvv. rewrite lookup_empty in Hvv. discriminate. }
  assert (po.get vm "tap_adapter.enabled" = po.get vm1 "tap_adapter.enabled") as Hsame.
  { eapply store_sources_command_line; try eassumption.
    apply in_map_iff. exists ("tap_adapter.enabled", ["false"]). split; [reflexivity|assumption]. }
  apply notify_and_setup_true in Hrun as (_ & s2 & Hsetup & -> & _).
  destruct (setup_configuration_inr env vm s1 s2 Hsetup)
    as (F & id & cvm & cs & T & S & ev1 & ev2 & _ & _ & Henabled & Hall).
  rewrite Hall in Hsetup. injection Hsetup as <-. cbn.
  rewrite Hsame, Hvalue in Henabled. injection Henabled as <-. reflexivity.
Qed.

(** [main] when [parse_options] throws. *)
Lemma main_throws env args ex st :
  parse_options env args (State default_configuration false []) = (inl ex, st) ->
  main env args = (EXIT_FAILURE, (st_trace st ++ [cerr_error ex])%list).
Proof. unfold main. intros ->. reflexivity. Qed.

(** [po::notify] on the required names of the schema. *)
Lemma notify_required vm :
  po.m_required vm = required_names ->
  po.notify vm =
    if resolves vm "security.signature_certificate_file"
    then if resolves vm "security.signature_private_key_file"
         then None
         else Some (required_option "security.signature_private_key_file")
    else Some (required_option "security.signature_certificate_file").
Proof.
  unfold po.notify. intros ->. rewrite required_names_eq. cbn [po.check_required].
  unfold resolves, po.count, po.get.
  destruct (po.m vm !! "security.signature_certificate_file") as [vc|].
  - rewrite bool_decide_eq_true_2 by eauto. cbn [default from_option id andb].
    destruct (po.value_empty vc); [reflexivity|]. cbn [negb].
    destruct (po.m vm !! "security.signature_private_key_file") as [vk|].
    + rewrite bool_decide_eq_true_2 by eauto. cbn [default from_option id andb].
      destruct (po.value_empty vk); reflexivity.
    + rewrite bool_decide_eq_false_2 by (intros [? ?]; discriminate). reflexivity.
  - rewrite bool_decide_eq_false_2 by (intros [? ?]; discriminate). reflexivity.
Qed.

(** C9: when a required option has no value after the sources are stored,
    [parse_options] throws [required_option] with the name of a required
    option that has no value (the signature private key when the signature
    certificate has one), and [main] returns the failure status. *)
Theorem missing_required_option env args vm s1 name :
  store_sources env args (State default_configuration false []) = (inr vm, s1) ->
  In name required_names ->
  resolves vm name = false ->
  exists offending,
    In offending required_names /\
    resolves vm offending = false /\
    parse_options env args (State default_configuration false []) =
      (inl (required_option offending), s1) /\
    main env args =
      (EXIT_FAILURE, (st_trace s1 ++ [cerr_error (required_option offending)])%list) /\
    (resolves vm "security.signature_certificate_file" = true ->
     offending = "security.signature_private_key_file").
Proof.
  intros Hsrc Hin Hname.
  pose proof (notify_required vm (store_sources_required env args _ vm s1 Hsrc)) as Hnotify.
  assert (exists offending,
            In offending required_names /\ resolves vm offending = false /\
            po.notify vm = Some (required_option offending) /\
            (resolves vm "security.signature_certificate_file" = true ->
             offending = "security.signature_private_key_file"))
    as (offending & Hoff & Hres & Hthrow & Hkey).
  { rewrite required_names_eq in *.
    destruct (resolves vm "security.signature_certificate_file") eqn:Hc.
    - destruct (resolves vm "security.signature_private_key_file") eqn:Hk.
      + destruct Hin as [<-|[<-|[]]]; congruence.
      + exists "security.signature_private_key_file".
        split; [right; left; reflexivity|]. auto.
    - exists "security.signature_certificate_file".
      split; [left; reflexivity|]. split; [assumption|]. split; [assumption|discriminate]. }
  assert (parse_options env args (State default_configuration false []) =
            (inl (required_option offending), s1)) as Hparse.
  { unfold parse_options. eapply bind_ok; [eassumption|].
    unfold notify_and_setup. apply bind_throw. rewrite Hthrow. reflexivity. }
  exists offending. repeat split; try assumption.
  apply main_throws. assumption.
Qed.

(** [store_sources] from the path it has selected. *)
Lemma store_sources_supplied env args st cl vm1 path :
  po.parse_command_line args all_options = inr cl ->
  po.store lexical_cast_uint all_options cl po.empty_map = inr vm1 ->
  supplied_path env vm1 path ->
  path <> EmptyString ->
  store_sources env args st =
    match ifstream env path with
    | None =>
        (inl (reading_file path),
         State (st_configuration st) (st_debug st)
           (st_trace st ++ [cout_reading path; ifstream_opened path false]))
    | Some lines =>
        (po.store lexical_cast_uint configuration_options
           (po.parse_config_file lines configuration_options) vm1,
         State (st_configuration st) (st_debug st)
           (st_trace st ++ [cout_reading path; ifstream_opened path true]))
    end.
Proof.
  intros Hcl Hvm1 Hpath Hne. unfold store_sources.
  eapply bind_ok; [apply lift_ok; eassumption|]. cbv beta.
  eapply bind_ok; [apply lift_ok; eassumption|]. cbv beta.
  eapply (bind_ok _ _ _ path).
  { destruct Hpath as [[-> Hp]|[-> Hp]]; [apply lift_ok; assumption|].
    rewrite Hp. reflexivity. }
  apply String.eqb_neq in Hne. rewrite Hne. cbn [negb].
  eapply bind_ok; [reflexivity|]. cbv beta.
  destruct (ifstream env path) as [lines|].
  - eapply bind_ok; [reflexivity|]. cbv beta. unfold lift.
    cbv [emit st_configuration st_debug st_trace]. rewrite <- app_assoc. reflexivity.
  - eapply bind_ok; [reflexivity|]. cbv beta. unfold throw.
    cbv [emit st_configuration st_debug st_trace]. rewrite <- app_assoc. reflexivity.
Qed.

(** C8 (as amended): a configuration file path that is not empty, given on
    the command line or, without one there, by the environment variable,
    names the one file that is read.  When that file does not open,
    [parse_options] throws [reading_file] with the path and no discovery
    path is probed; when it opens, it is the file stored.  With a path on
    the command line the environment variable plays no part. *)
Theorem supplied_configuration_file env args st cl vm1 path :
  po.parse_command_line args all_options = inr cl ->
  po.store lexical_cast_uint all_options cl po.empty_map = inr vm1 ->
  supplied_path env vm1 path ->
  path <> EmptyString ->
  (ifstream env path = None ->
   parse_options env args st =
     (inl (reading_file path),
      State (st_configuration st) (st_debug st)
        (st_trace st ++ [cout_reading path; ifstream_opened path false]))) /\
  (forall lines, ifstream env path = Some lines ->
   store_sources env args st =
     (po.store lexical_cast_uint configuration_options
        (po.parse_config_file lines configuration_options) vm1,
      State (st_configuration st) (st_debug st)
        (st_trace st ++ [cout_reading path; ifstream_opened path true]))) /\
  (po.count vm1 "configuration_file" = true ->
   forall variables,
     store_sources
       (Environment variables (get_home_directory env) (get_application_directory env)
          (ifstream env) (file_open env)) args st =
     store_sources env args st).
Proof.
  intros Hcl Hvm1 Hpath Hne.
  pose proof (store_sources_supplied env args st cl vm1 path Hcl Hvm1 Hpath Hne) as Hrun.
  split; [|split].
  - intros Hopen. rewrite Hopen in Hrun. unfold parse_options.
    apply bind_throw. assumption.
  - intros lines Hopen. rewrite Hopen in Hrun. assumption.
  - intros Hcount variables. rewrite Hrun.
    destruct Hpath as [[_ Hp]|[Hc _]]; [|congruence].
    rewrite (store_sources_supplied
               (Environment variables (get_home_directory env)
                  (get_application_directory env) (ifstream env) (file_open env))
               args st cl vm1 path Hcl Hvm1); [reflexivity| |assumption].
    left. auto.
Qed.

(** C6 (the code at the claim): without a validation script in the
    variables map, [parse_options] cannot return: once the assembler has
    returned, [get_certificate_validation_script] throws [bad_any_cast],
    and [main] returns the failure status. *)
Theorem no_validation_script env args vm s1 s2 :
  store_sources env args (State default_configuration false []) = (inr vm, s1) ->
  po.notify vm = None ->
  po.count vm "help" = false ->
  po.count vm "security.certificate_validation_script" = false ->
  setup_configuration env vm s1 = (inr tt, s2) ->
  parse_options env args (State default_configuration false []) = (inl bad_any_cast, s2) /\
  main env args = (EXIT_FAILURE, (st_trace s2 ++ [cerr_error bad_any_cast])%list).
Proof.
  intros Hsrc Hnotify Hhelp Hscript Hsetup.
  assert (parse_options env args (State default_configuration false []) =
            (inl bad_any_cast, s2)) as Hparse.
  { unfold parse_options. eapply bind_ok; [eassumption|].
    unfold notify_and_setup. rewrite Hnotify, Hhelp.
    eapply bind_ok; [reflexivity|]. cbv beta.
    eapply bind_ok; [eassumption|]. cbv beta.
    apply bind_throw. unfold get_certificate_validation_script, po.get.
    unfold po.count in Hscript. apply bool_decide_eq_false in Hscript.
    destruct (po.m vm !! "security.certificate_validation_script") as [vv|] eqn:Hvv.
    - exfalso. apply Hscript. eauto.
    - reflexivity. }
  split; [assumption|]. apply main_throws. assumption.
Qed.

Lemma probe_configuration_files_trace env files vm1 st vm st' :
  probe_configuration_files env files vm1 st = (inr vm, st') ->
  exists events, st_trace st' = (st_trace st ++ events)%list.
Proof.
  revert st. induction files as [|conf files IH]; intros st Hrun.
  - apply ret_inr in Hrun as [_ ->]. exists []. rewrite app_nil_r. reflexivity.
  - cbn [probe_configuration_files] in Hrun.
    destruct (ifstream env conf) as [lines|].
    + inv_ok Hrun. eexists. cbn. rewrite <- app_assoc. reflexivity.
    + apply bind_inr in Hrun as ([] & s1 & Hemit & Hrun).
      apply emit_inr in Hemit as ->. apply IH in Hrun as (events & ->).
      eexists. cbn. rewrite <- app_assoc. reflexivity.
Qed.

(** C3 (the code at the claim): without a path on the command line and in
    the environment, every returning [store_sources] ends with the
    warning, also when it has found and read a discovery file: the flag
    that guards the warning is never set. *)
Theorem discovery_always_warns env args st cl vm1 vm st' :
  po.parse_command_line args all_options = inr cl ->
  po.store lexical_cast_uint all_options cl po.empty_map = inr vm1 ->
  po.count vm1 "configuration_file" = false ->
  getenv env "FREELAN_CONFIGURATION_FILE" = None ->
  store_sources env args st = (inr vm, st') ->
  exists events,
    st_trace st' =
      (st_trace st ++ events ++ [cerr_warning (get_configuration_files env)])%list.
Proof.
  intros Hcl Hvm1 Hcount Henv. unfold store_sources.
  rewrite (bind_ok _ _ _ _ _ _ (lift_ok _ st cl Hcl) eq_refl).
  rewrite (bind_ok _ _ _ _ _ _ (lift_ok _ st vm1 Hvm1) eq_refl).
  rewrite Hcount, Henv. intros Hrun.
  apply bind_inr in Hrun as (path & s1 & Hpath & Hrun).
  apply ret_inr in Hpath as [-> ->]. cbn [String.eqb negb] in Hrun. cbv zeta in Hrun.
  apply bind_inr in Hrun as (vm2 & s2 & Hprobe & Hrun).
  apply probe_configuration_files_trace in Hprobe as (events & Htrace).
  inv_ok Hrun. exists events. cbn. rewrite Htrace, <- app_assoc. reflexivity.
Qed.

(** C4 (the code at the claim): [po::notify] runs before the test of the
    help option, so with the help option and without the signature
    certificate option [parse_options] throws [required_option]; no usage
    text is printed and [main] returns the failure status. *)
Theorem help_needs_required_options env args vm s1 :
  store_sources env args (State default_configuration false []) = (inr vm, s1) ->
  po.count vm "help" = true ->
  resolves vm "security.signature_certificate_file" = false ->
  parse_options env args (State default_configuration false []) =
    (inl (required_option "security.signature_certificate_file"), s1) /\
  main env args =
    (EXIT_FAILURE,
     (st_trace s1 ++
      [cerr_error (required_option "security.signature_certificate_file")])%list).
Proof.
  intros Hsrc _ Hmissing.
  pose proof (notify_required vm (store_sources_required env args _ vm s1 Hsrc)) as Hnotify.
  rewrite Hmissing in Hnotify.
  assert (parse_options env args (State default_configuration false []) =
            (inl (required_option "security.signature_certificate_file"), s1)) as Hparse.
  { unfold parse_options. eapply bind_ok; [eassumption|].
    unfold notify_and_setup. apply bind_throw. rewrite Hnotify. reflexivity. }
  split; [assumption|]. apply main_throws. assumption.
Qed.

End Claims.

(** ** The claims on the concrete instance *)
Import Demo.

Section Examples.

Lemma hostname_resolution_protocol_tokens_witness :
  parse_network_hostname_resolution_protocol "bogus" =
    inl (runtime_error
           (quote +:+ "bogus" +:+ quote +:+ " is not a valid hostname resolution protocol")).
Proof.
  apply (proj2 (proj2 (proj2 hostname_resolution_protocol_tokens))); discriminate.
Defined.

(** C5, as stated, fails: the three tokens do not map to three values. *)
Lemma hostname_resolution_protocol_two_values :
  ~ (exists system_default ipv4 ipv6 : udp,
       system_default <> ipv4 /\ system_default <> ipv6 /\ ipv4 <> ipv6 /\
       parse_network_hostname_resolution_protocol "system_default" = inr system_default /\
       parse_network_hostname_resolution_protocol "ipv4" = inr ipv4 /\
       parse_network_hostname_resolution_protocol "ipv6" = inr ipv6).
Proof.
  intros (sd & v4 & v6 & Hne & _ & _ & Hsd & Hv4 & _).
  vm_compute in Hsd, Hv4. congruence.
Qed.

Example setup_configuration_lists :
  let st1 := (setup_configuration bare (variables list_arguments) start).2 in
  contact_list (fscp (st_configuration st1)) = ["10.0.0.1:12000"; "10.0.0.2:12000"] /\
  certificate_authority_list (security (st_configuration st1)) = [Some "CA1"; Some "CA2"].
Proof. vm_compute. auto. Qed.


Lemma command_line_wins_witness :
  enabled (tap_adapter (st_configuration
    (parse_options with_user_file
       (script_arguments ++ [("tap_adapter.enabled", ["false"])])%list start).2)) = false.
Proof.
  apply (proj2 (command_line_wins with_user_file
                  (script_arguments ++ [("tap_adapter.enabled", ["false"])])%list start)).
  - vm_compute. auto 10.
  - vm_compute. reflexivity.
Defined.

(** The file is read: it alone gives the tap adapter its value when the
    command line is silent. *)
Example configuration_file_fills :
  po.get (sources with_user_file script_arguments) "tap_adapter.enabled" =
    po.Variable_value (po.any_bool true) false /\
  po.get (sources with_user_file
            (script_arguments ++ [("tap_adapter.enabled", ["false"])])%list)
    "tap_adapter.enabled" = po.Variable_value (po.any_bool false) false.
Proof. vm_compute. auto. Qed.

Lemma discovery_always_warns_witness :
  exists events,
    st_trace (stored with_user_file script_arguments) =
      (st_trace start ++ events ++
       [cerr_warning (get_configuration_files with_user_file)])%list.
Proof.
  eapply (discovery_always_warns with_user_file script_arguments start _ _
            (sources with_user_file script_arguments)).
  - vm_compute. reflexivity.
  - vm_compute. reflexivity.
  - vm_compute. reflexivity.
  - reflexivity.
  - vm_compute. reflexivity.
Defined.

(** C3 at the failing input: the file at the first discovery path is found
    and read, and the warning says that none was found. *)
Example discovery_file_read_and_warning :
  st_trace (stored with_user_file script_arguments) =
    [ ifstream_opened user_file true; cout_reading user_file;
      cerr_warning [user_file; "/opt/freelan/freelan.cfg"] ].
Proof. vm_compute. reflexivity. Qed.

Lemma help_needs_required_options_witness :
  parse_options bare [("help", [])] (State default_configuration false []) =
    (inl (required_option "security.signature_certificate_file"),
     stored bare [("help", [])]) /\
  main bare [("help", [])] =
    (EXIT_FAILURE,
     (st_trace (stored bare [("help", [])]) ++
      [cerr_error (required_option "security.signature_certificate_file")])%list).
Proof.
  apply (help_needs_required_options bare [("help", [])] (sources bare [("help", [])])).
  - vm_compute. reflexivity.
  - vm_compute. reflexivity.
  - vm_compute. reflexivity.
Defined.

Lemma no_validation_script_witness :
  parse_options bare signature_arguments (State default_configuration false []) =
    (inl bad_any_cast,
     (setup_configuration bare (sources bare signature_arguments)
        (stored bare signature_arguments)).2) /\
  main bare signature_arguments =
    (EXIT_FAILURE,
     (st_trace (setup_configuration bare (sources bare signature_arguments)
                  (stored bare signature_arguments)).2 ++ [cerr_error bad_any_cast])%list).
Proof.
  apply (no_validation_script bare signature_arguments
           (sources bare signature_arguments) (stored bare signature_arguments)).
  - vm_compute. reflexivity.
  - vm_compute. reflexivity.
  - vm_compute. reflexivity.
  - vm_compute. reflexivity.
  - vm_compute. reflexivity.
Defined.

(** C6 at the failing input: both credentials load, then the cast throws. *)
Example no_validation_script_run :
  main bare signature_arguments =
    (EXIT_FAILURE,
     [ ifstream_opened user_file false; ifstream_opened "/opt/freelan/freelan.cfg" false;
       cerr_warning [user_file; "/opt/freelan/freelan.cfg"];
       file_opened "sig.crt"; file_opened "sig.key"; cerr_error bad_any_cast ]).
Proof. vm_compute. reflexivity. Qed.

(** With a script on the command line the callback is bound to it, and the
    core is started. *)
Example validation_script_bound :
  exists c,
    main bare script_arguments =
      (EXIT_SUCCESS,
       [ ifstream_opened user_file false; ifstream_opened "/opt/freelan/freelan.cfg" false;
         cerr_warning [user_file; "/opt/freelan/freelan.cfg"];
         file_opened "sig.crt"; file_opened "sig.key"; core_started c false ]) /\
    certificate_validation_callback (security c) = callback_script "check.sh".
Proof. eexists. vm_compute. split; reflexivity. Qed.

Lemma supplied_configuration_file_witness :
  parse_options bare [("configuration_file", ["nowhere.cfg"])] start =
    (inl (reading_file "nowhere.cfg"),
     State (st_configuration start) (st_debug start)
       (st_trace start ++
        [cout_reading "nowhere.cfg"; ifstream_opened "nowhere.cfg" false])).
Proof.
  refine (proj1 (supplied_configuration_file bare [("configuration_file", ["nowhere.cfg"])]
                   start [po.Basic_option "configuration_file" ["nowhere.cfg"] false]
                   (variables [("configuration_file", ["nowhere.cfg"])])
                   "nowhere.cfg" _ _ _ _) _).
  - vm_compute. reflexivity.
  - vm_compute. reflexivity.
  - left. vm_compute. auto.
  - discriminate.
  - reflexivity.
Defined.

(** C8, as stated, fails: an empty path, on the command line or in the
    environment variable, names no file that opens, yet nothing is thrown
    and the discovery paths are probed. *)
Lemma empty_configuration_file_path :
  ifstream bare EmptyString = None /\
  (exists vm, (store_sources bare [("configuration_file", [EmptyString])] start).1 = inr vm) /\
  st_trace (stored bare [("configuration_file", [EmptyString])]) =
    [ ifstream_opened user_file false; ifstream_opened "/opt/freelan/freelan.cfg" false;
      cerr_warning [user_file; "/opt/freelan/freelan.cfg"] ] /\
  getenv with_empty_variable "FREELAN_CONFIGURATION_FILE" = Some EmptyString /\
  (exists vm, (store_sources with_empty_variable [] start).1 = inr vm) /\
  st_trace (stored with_empty_variable []) =
    [ ifstream_opened user_file false; ifstream_opened "/opt/freelan/freelan.cfg" false;
      cerr_warning [user_file; "/opt/freelan/freelan.cfg"] ].
Proof. vm_compute. repeat split; eauto. Qed.

Lemma missing_required_option_witness :
  exists offending,
    In offending required_names /\
    resolves (sources bare [("security.signature_certificate_file", ["sig.crt"])])
      offending = false /\
    parse_options bare [("security.signature_certificate_file", ["sig.crt"])]
      (State default_configuration false []) =
      (inl (required_option offending),
       stored bare [("security.signature_certificate_file", ["sig.crt"])]) /\
    main bare [("security.signature_certificate_file", ["sig.crt"])] =
      (EXIT_FAILURE,
       (st_trace (stored bare [("security.signature_certificate_file", ["sig.crt"])]) ++
        [cerr_error (required_option offending)])%list) /\
    (resolves (sources bare [("security.signature_certificate_file", ["sig.crt"])])
       "security.signature_certificate_file" = true ->
     offending = "security.signature_private_key_file").
Proof.
  apply (missing_required_option bare
           [("security.signature_certificate_file", ["sig.crt"])] _ _
           "security.signature_private_key_file").
  - vm_compute. reflexivity.
  - vm_compute. auto.
  - vm_compute. reflexivity.
Defined.

End Examples.

(** * Further properties of the program *)

(** ** What a run leaves alone and what it may emit *)
Section Frame_facts.
Context `{Collaborators}.

Lemma emits_mono {A} (P Q : event -> Prop) (c : M A) :
  (forall ev, P ev -> Q ev) -> emits P c -> emits Q c.
Proof.
  intros HPQ Hc st. destruct (Hc st) as (events & Htrace & Hall).
  exists events. split; [assumption|]. eapply Forall_impl; eassumption.
Qed.

Lemma emits_ret {A} P (a : A) : emits P (mret a : M A).
Proof. intros st. exists []. cbn. rewrite app_nil_r. auto. Qed.

Lemma emits_lift {A} P (r : exception + A) : emits P (lift r).
Proof. intros st. exists []. cbn. rewrite app_nil_r. auto. Qed.

Lemma emits_throw {A} P e : emits P (throw e : M A).
Proof. intros st. exists []. cbn. rewrite app_nil_r. auto. Qed.

Lemma emits_assign P f : emits P (assign f).
Proof. intros st. exists []. cbn. rewrite app_nil_r. auto. Qed.

Lemma emits_set_debug P b : emits P (set_debug b).
Proof. intros st. exists []. cbn. rewrite app_nil_r. auto. Qed.

Lemma emits_emit (P : event -> Prop) ev : P ev -> emits P (emit ev).
Proof. intros Hev st. exists [ev]. cbn. auto. Qed.

Lemma emits_bind {A B} P (c : M A) (k : A -> M B) :
  emits P c -> (forall a, emits P (k a)) -> emits P (c ≫= k).
Proof.
  intros Hc Hk st. rewrite bind_run. destruct (Hc st) as (ev1 & Htrace1 & Hall1).
  destruct (c st) as [[e|a] st1]; cbn in *.
  - exists ev1. auto.
  - destruct (Hk a st1) as (ev2 & Htrace2 & Hall2).
    exists (ev1 ++ ev2)%list. rewrite Htrace2, Htrace1, app_assoc.
    split; [reflexivity|]. apply Forall_app. auto.
Qed.

Lemma emits_foreach {A} P (l : list A) (body : A -> M unit) :
  (forall x, emits P (body x)) -> emits P (foreach l body).
Proof.
  intros Hbody. induction l as [|x l IH]; cbn [foreach].
  - apply emits_ret.
  - apply emits_bind; auto.
Qed.

Lemma keeps_ret {A X} (proj : state -> X) (a : A) : keeps proj (mret a : M A).
Proof. intros st. reflexivity. Qed.

Lemma keeps_lift {A X} (proj : state -> X) (r : exception + A) : keeps proj (lift r).
Proof. intros st. reflexivity. Qed.

Lemma keeps_throw {A X} (proj : state -> X) e : keeps proj (throw e : M A).
Proof. intros st. reflexivity. Qed.

Lemma keeps_bind {A B X} (proj : state -> X) (c : M A) (k : A -> M B) :
  keeps proj c -> (forall a, keeps proj (k a)) -> keeps proj (c ≫= k).
Proof.
  intros Hc Hk st. rewrite bind_run. specialize (Hc st).
  destruct (c st) as [[e|a] st1]; cbn in *; [assumption|].
  rewrite Hk. assumption.
Qed.

Lemma keeps_foreach {A X} (proj : state -> X) (l : list A) (body : A -> M unit) :
  (forall x, keeps proj (body x)) -> keeps proj (foreach l body).
Proof.
  intros Hbody. induction l as [|x l IH]; cbn [foreach].
  - apply keeps_ret.
  - apply keeps_bind; auto.
Qed.

(** An assignment keeps the debug flag, and keeps the validation callback
    when the assigned member is another one. *)
Lemma keeps_debug_assign f : keeps st_debug (assign f).
Proof. intros st. reflexivity. Qed.

Lemma keeps_debug_emit ev : keeps st_debug (emit ev).
Proof. intros st. reflexivity. Qed.

Lemma keeps_emit {X} (proj : state -> X) ev :
  (forall st, proj (State (st_configuration st) (st_debug st) (st_trace st ++ [ev])) =
              proj st) ->
  keeps proj (emit ev).
Proof. intros Hproj st. apply Hproj. Qed.

Lemma keeps_assign {X} (proj : state -> X) f :
  (forall st, proj (State (f (st_configuration st)) (st_debug st) (st_trace st)) =
              proj st) ->
  keeps proj (assign f).
Proof. intros Hproj st. apply Hproj. Qed.

End Frame_facts.

Create HintDb frame.

#[export] Hint Resolve emits_ret emits_lift emits_throw emits_assign emits_set_debug
  keeps_ret keeps_lift keeps_throw keeps_debug_assign keeps_debug_emit : frame.

Ltac frame_step :=
  first
    [ apply emits_bind; [|intros ?]
    | apply keeps_bind; [|intros ?]
    | apply emits_foreach; intros ?
    | apply keeps_foreach; intros ?
    | apply emits_emit; solve [exact I | eexists; reflexivity]
    | apply keeps_emit; intros ?; reflexivity
    | apply keeps_assign; intros ?; cbv beta; unfold callback_of; unfold_setters; reflexivity
    | match goal with
      | |- emits _ match ?x with _ => _ end => destruct x
      | |- keeps _ match ?x with _ => _ end => destruct x
      end
    | solve [auto with frame] ].

Ltac frame := repeat frame_step.

(** The parts of the assembler, unfolded to their steps. *)
Ltac unfold_setup :=
  unfold setup_configuration, setup_fscp_options, setup_security_identity,
    setup_certificate_authority_list, setup_tap_adapter_options, setup_switch_options,
    load_certificate, load_private_key, load_trusted_certificate, load_file,
    push_back_contact, push_back_certificate_authority, vm_string, vm_bool, vm_uint,
    vm_strings.

Section Setup_frame.
Context `{Collaborators}.
Variable env : environment.

Lemma setup_configuration_emits vm : emits is_file_opened (setup_configuration env vm).
Proof. unfold_setup. frame. Qed.

Lemma setup_configuration_keeps_debug vm : keeps st_debug (setup_configuration env vm).
Proof. unfold_setup. frame. Qed.

Lemma setup_configuration_keeps_callback vm :
  keeps callback_of (setup_configuration env vm).
Proof. unfold_setup. frame. Qed.

(** X1: whatever its outcome, the assembler leaves the validation callback
    and the debug flag of its caller alone, and the only thing it does to
    the outside is to open files. *)
Theorem setup_configuration_frame vm st :
  let st' := (setup_configuration env vm st).2 in
  callback_of st' = callback_of st /\
  st_debug st' = st_debug st /\
  exists events, st_trace st' = (st_trace st ++ events)%list /\
    Forall is_file_opened events.
Proof.
  split; [apply setup_configuration_keeps_callback|].
  split; [apply setup_configuration_keeps_debug|].
  apply setup_configuration_emits.
Qed.

End Setup_frame.

(** ** The assembler, member by member *)
Section Setup_results.
Context `{Collaborators}.
Variable env : environment.

(** The parts after the first keep what the first has assigned, and so
    on: each part assigns its own members only. *)
Lemma setup_security_identity_keeps_fscp vm :
  keeps (fun st => fscp (st_configuration st)) (setup_security_identity env vm).
Proof. unfold_setup. frame. Qed.

Lemma setup_certificate_authority_list_keeps_fscp vm :
  keeps (fun st => fscp (st_configuration st)) (setup_certificate_authority_list env vm).
Proof. unfold_setup. frame. Qed.

Lemma setup_tap_adapter_options_keeps_fscp vm :
  keeps (fun st => fscp (st_configuration st)) (setup_tap_adapter_options vm).
Proof. unfold_setup. frame. Qed.

Lemma setup_switch_options_keeps_fscp vm :
  keeps (fun st => fscp (st_configuration st)) (setup_switch_options vm).
Proof. unfold_setup. frame. Qed.

Lemma setup_switch_options_keeps_tap_adapter vm :
  keeps (fun st => tap_adapter (st_configuration st)) (setup_switch_options vm).
Proof. unfold_setup. frame. Qed.

Lemma setup_certificate_authority_list_keeps_method vm :
  keeps (fun st => certificate_validation_method (security (st_configuration st)))
    (setup_certificate_authority_list env vm).
Proof. unfold_setup. frame. Qed.

Lemma setup_tap_adapter_options_keeps_security vm :
  keeps (fun st => security (st_configuration st)) (setup_tap_adapter_options vm).
Proof. unfold_setup. frame. Qed.

Lemma setup_switch_options_keeps_security vm :
  keeps (fun st => security (st_configuration st)) (setup_switch_options vm).
Proof. unfold_setup. frame. Qed.

(** A run of the assembler that returns, part by part. *)
Lemma setup_configuration_parts vm st st' :
  setup_configuration env vm st = (inr tt, st') ->
  exists s1 s2 s3 s4,
    setup_fscp_options vm st = (inr tt, s1) /\
    setup_security_identity env vm s1 = (inr tt, s2) /\
    setup_certificate_authority_list env vm s2 = (inr tt, s3) /\
    setup_tap_adapter_options vm s3 = (inr tt, s4) /\
    setup_switch_options vm s4 = (inr tt, st').
Proof.
  unfold setup_configuration. intros Hrun.
  apply bind_inr in Hrun as ([] & s1 & H1 & Hrun).
  apply bind_inr in Hrun as ([] & s2 & H2 & Hrun).
  apply bind_inr in Hrun as ([] & s3 & H3 & Hrun).
  apply bind_inr in Hrun as ([] & s4 & H4 & Hrun).
  exists s1, s2, s3, s4. auto.
Qed.

Lemma keeps_run {A X} (proj : state -> X) (c : M A) st r st' :
  keeps proj c -> c st = (r, st') -> proj st' = proj st.
Proof. intros Hkeeps Hrun. specialize (Hkeeps st). rewrite Hrun in Hkeeps. exact Hkeeps. Qed.

(** X5: when the assembler returns, the channel and switch members of the
    aggregate are the conversions of the values of their options: the
    contact list has one endpoint for each token of fscp.contact, in
    order. *)
Theorem setup_configuration_fscp_and_switch vm st st' :
  setup_configuration env vm st = (inr tt, st') ->
  let c := st_configuration st' in
  exists protocol endpoint contacts method,
    po.as_string (po.get vm "fscp.hostname_resolution_protocol") = inr protocol /\
    parse_network_hostname_resolution_protocol protocol =
      inr (hostname_resolution_protocol (fscp c)) /\
    po.as_string (po.get vm "fscp.listen_on") = inr endpoint /\
    parse_ep_type endpoint = inr (listen_on (fscp c)) /\
    po.as_uint (po.get vm "fscp.hello_timeout") = inr (hello_timeout (fscp c)) /\
    po.as_strings (po.get vm "fscp.contact") = inr contacts /\
    Forall2 (fun s ep => parse_ep_type s = inr ep) contacts (contact_list (fscp c)) /\
    po.as_string (po.get vm "switch.routing_method") = inr method /\
    to_routing_method method = inr (routing_method (switch_ c)) /\
    po.as_bool (po.get vm "switch.relay_mode_enabled") = inr (relay_mode_enabled (switch_ c)).
Proof.
  intros Hrun c. subst c.
  apply setup_configuration_parts in Hrun as (s1 & s2 & s3 & s4 & H1 & H2 & H3 & H4 & H5).
  assert (fscp (st_configuration st') = fscp (st_configuration s1)) as ->.
  { rewrite (keeps_run _ _ _ _ _ (setup_switch_options_keeps_fscp vm) H5).
    rewrite (keeps_run _ _ _ _ _ (setup_tap_adapter_options_keeps_fscp vm) H4).
    rewrite (keeps_run _ _ _ _ _ (setup_certificate_authority_list_keeps_fscp vm) H3).
    apply (keeps_run _ _ _ _ _ (setup_security_identity_keeps_fscp vm) H2). }
  clear H2 H3 H4.
  unfold setup_fscp_options, vm_string, vm_uint, vm_strings in H1.
  apply bind_inr in H1 as (protocol & ? & Hp & H1). apply lift_inr in Hp as [Hp ->].
  apply bind_inr in H1 as (p & ? & Hpp & H1). apply lift_inr in Hpp as [Hpp ->].
  apply bind_inr in H1 as ([] & ? & Ha & H1). apply assign_inr in Ha as ->.
  apply bind_inr in H1 as (endpoint & ? & He & H1). apply lift_inr in He as [He ->].
  apply bind_inr in H1 as (ep & ? & Hep & H1). apply lift_inr in Hep as [Hep ->].
  apply bind_inr in H1 as ([] & ? & Ha & H1). apply assign_inr in Ha as ->.
  apply bind_inr in H1 as (n & ? & Hn & H1). apply lift_inr in Hn as [Hn ->].
  apply bind_inr in H1 as ([] & ? & Ha & H1). apply assign_inr in Ha as ->.
  apply bind_inr in H1 as (contacts & ? & Hc & H1). apply lift_inr in Hc as [Hc ->].
  apply bind_inr in H1 as ([] & ? & Ha & H1). apply assign_inr in Ha as ->.
  apply contact_loop_inr in H1 as Hloop. destruct Hloop as (eps & Hall & Hloop).
  rewrite Hloop in H1. injection H1 as <-.
  unfold setup_switch_options, vm_string, vm_bool in H5.
  apply bind_inr in H5 as (method & ? & Hm & H5). apply lift_inr in Hm as [Hm ->].
  apply bind_inr in H5 as (r & ? & Hr & H5). apply lift_inr in Hr as [Hr ->].
  apply bind_inr in H5 as ([] & ? & Ha & H5). apply assign_inr in Ha as ->.
  apply bind_inr in H5 as (b & ? & Hb & H5). apply lift_inr in Hb as [Hb ->].
  apply assign_inr in H5 as ->.
  exists protocol, endpoint, contacts, method.
  unfold_setters. cbn [app]. unfold to_time_duration in *. auto 12.
Qed.

(** X6: when the assembler returns, each tap adapter member is the conversion
    of the value of the option of its own name. *)
Theorem setup_configuration_tap_adapter vm st st' :
  setup_configuration env vm st = (inr tt, st') ->
  let t := tap_adapter (st_configuration st') in
  exists ipv4 ipv6 ethernet dhcp_ipv4 dhcp_ipv6,
    po.as_bool (po.get vm "tap_adapter.enabled") = inr (enabled t) /\
    po.as_string (po.get vm "tap_adapter.ipv4_address_prefix_length") = inr ipv4 /\
    parse_optional_ipv4 ipv4 = inr (ipv4_address_prefix_length t) /\
    po.as_string (po.get vm "tap_adapter.ipv6_address_prefix_length") = inr ipv6 /\
    parse_optional_ipv6 ipv6 = inr (ipv6_address_prefix_length t) /\
    po.as_bool (po.get vm "tap_adapter.arp_proxy_enabled") = inr (arp_proxy_enabled t) /\
    po.as_string (po.get vm "tap_adapter.arp_proxy_fake_ethernet_address") = inr ethernet /\
    parse_ethernet_address_type ethernet = inr (arp_proxy_fake_ethernet_address t) /\
    po.as_bool (po.get vm "tap_adapter.dhcp_proxy_enabled") = inr (dhcp_proxy_enabled t) /\
    po.as_string (po.get vm "tap_adapter.dhcp_server_ipv4_address_prefix_length") =
      inr dhcp_ipv4 /\
    parse_optional_ipv4 dhcp_ipv4 = inr (dhcp_server_ipv4_address_prefix_length t) /\
    po.as_string (po.get vm "tap_adapter.dhcp_server_ipv6_address_prefix_length") =
      inr dhcp_ipv6 /\
    parse_optional_ipv6 dhcp_ipv6 = inr (dhcp_server_ipv6_address_prefix_length t).
Proof.
  intros Hrun t. subst t.
  apply setup_configuration_parts in Hrun as (s1 & s2 & s3 & s4 & _ & _ & _ & H4 & H5).
  rewrite (keeps_run _ _ _ _ _ (setup_switch_options_keeps_tap_adapter vm) H5). clear H5.
  unfold setup_tap_adapter_options, vm_string, vm_bool in H4.
  apply bind_inr in H4 as (b1 & ? & Hb1 & H4). apply lift_inr in Hb1 as [Hb1 ->].
  apply bind_inr in H4 as ([] & ? & Ha & H4). apply assign_inr in Ha as ->.
  apply bind_inr in H4 as (ipv4 & ? & Hs1 & H4). apply lift_inr in Hs1 as [Hs1 ->].
  apply bind_inr in H4 as (a1 & ? & Ha1 & H4). apply lift_inr in Ha1 as [Ha1 ->].
  apply bind_inr in H4 as ([] & ? & Ha & H4). apply assign_inr in Ha as ->.
  apply bind_inr in H4 as (ipv6 & ? & Hs2 & H4). apply lift_inr in Hs2 as [Hs2 ->].
  apply bind_inr in H4 as (a2 & ? & Ha2 & H4). apply lift_inr in Ha2 as [Ha2 ->].
  apply bind_inr in H4 as ([] & ? & Ha & H4). apply assign_inr in Ha as ->.
  apply bind_inr in H4 as (b2 & ? & Hb2 & H4). apply lift_inr in Hb2 as [Hb2 ->].
  apply bind_inr in H4 as ([] & ? & Ha & H4). apply assign_inr in Ha as ->.
  apply bind_inr in H4 as (ethernet & ? & Hs3 & H4). apply lift_inr in Hs3 as [Hs3 ->].
  apply bind_inr in H4 as (a3 & ? & Ha3 & H4). apply lift_inr in Ha3 as [Ha3 ->].
  apply bind_inr in H4 as ([] & ? & Ha & H4). apply assign_inr in Ha as ->.
  apply bind_inr in H4 as (b3 & ? & Hb3 & H4). apply lift_inr in Hb3 as [Hb3 ->].
  apply bind_inr in H4 as ([] & ? & Ha & H4). apply assign_inr in Ha as ->.
  apply bind_inr in H4 as (dhcp_ipv4 & ? & Hs4 & H4). apply lift_inr in Hs4 as [Hs4 ->].
  apply bind_inr in H4 as (a4 & ? & Ha4 & H4). apply lift_inr in Ha4 as [Ha4 ->].
  apply bind_inr in H4 as ([] & ? & Ha & H4). apply assign_inr in Ha as ->.
  apply bind_inr in H4 as (dhcp_ipv6 & ? & Hs5 & H4). apply lift_inr in Hs5 as [Hs5 ->].
  apply bind_inr in H4 as (a5 & ? & Ha5 & H4). apply lift_inr in Ha5 as [Ha5 ->].
  apply assign_inr in H4 as ->.
  exists ipv4, ipv6, ethernet, dhcp_ipv4, dhcp_ipv6.
  unfold_setters. auto 15.
Qed.

Lemma setup_security_identity_method vm st st' :
  setup_security_identity env vm st = (inr tt, st') ->
  exists method,
    po.as_string (po.get vm "security.certificate_validation_method") = inr method /\
    to_certificate_validation_method method =
      inr (certificate_validation_method (security (st_configuration st'))).
Proof.
  unfold setup_security_identity. intros Hrun.
  apply bind_inr in Hrun as (? & ? & _ & Hrun).
  apply bind_inr in Hrun as (? & ? & _ & Hrun).
  apply bind_inr in Hrun as (? & ? & _ & Hrun).
  apply bind_inr in Hrun as (? & ? & _ & Hrun).
  apply bind_inr in Hrun as (? & ? & _ & Hrun).
  apply bind_inr in Hrun as (? & ? & _ & Hrun).
  apply bind_inr in Hrun as (? & ? & _ & Hrun).
  apply bind_inr in Hrun as (? & ? & _ & Hrun).
  unfold vm_string in Hrun.
  apply bind_inr in Hrun as (method & ? & Hm & Hrun). apply lift_inr in Hm as [Hm ->].
  apply bind_inr in Hrun as (cvm & ? & Hcvm & Hrun). apply lift_inr in Hcvm as [Hcvm ->].
  apply assign_inr in Hrun as ->.
  exists method. unfold_setters. auto.
Qed.

(** X7: when the assembler returns, the security members are what the
    credential files gave: the identity store is built from the signature
    pair and from each encryption credential whose option is present, the
    validation method is the conversion of its option, and the authority
    list has one certificate for each token of
    security.authority_certificate_file, in order.  The files were opened
    in this order: signature certificate, signature key, encryption
    certificate, encryption key, then the authorities; nothing else was
    opened. *)
Theorem setup_configuration_security vm st st' :
  setup_configuration env vm st = (inr tt, st') ->
  let s := security (st_configuration st') in
  exists method ev_identity ev_authorities,
    identity_loaded env vm (identity s) ev_identity /\
    po.as_string (po.get vm "security.certificate_validation_method") = inr method /\
    to_certificate_validation_method method = inr (certificate_validation_method s) /\
    authorities_loaded env vm (certificate_authority_list s) ev_authorities /\
    st_trace st' = (st_trace st ++ ev_identity ++ ev_authorities)%list.
Proof.
  intros Hrun s. subst s.
  destruct (setup_configuration_inr env vm st st' Hrun)
    as (F & id & cvm & cs & T & S & ev1 & ev2 & Hid & Hcs & _ & Hall).
  pose proof Hrun as Hparts.
  apply setup_configuration_parts in Hparts as (s1 & s2 & s3 & s4 & _ & H2 & H3 & H4 & H5).
  apply setup_security_identity_method in H2 as (method & Hm & Hcvm).
  assert (certificate_validation_method (security (st_configuration st')) =
          certificate_validation_method (security (st_configuration s2))) as Hkeep.
  { rewrite (keeps_run _ _ _ _ _ (setup_switch_options_keeps_security vm) H5).
    rewrite (keeps_run _ _ _ _ _ (setup_tap_adapter_options_keeps_security vm) H4).
    apply (keeps_run _ _ _ _ _ (setup_certificate_authority_list_keeps_method vm) H3). }
  rewrite <- Hkeep in Hcvm. clear Hkeep H3 H4 H5.
  rewrite Hall in Hrun. injection Hrun as <-.
  exists method, ev1, ev2. cbn in *. auto 10.
Qed.

End Setup_results.

(** ** The assembler that throws, and [parse_options] around it *)
Section Setup_errors.
Context `{Core}.
Variable env : environment.

#[local] Abbreviation contact_body :=
  (fun contact : string => ep ← lift (parse_ep_type contact); push_back_contact ep).

(** X3: a hostname resolution token that the converter rejects ends the
    assembler at its first statement: the converter's error comes out, no
    member is assigned and no file is opened. *)
Theorem setup_configuration_rejects_protocol vm st protocol ex :
  po.as_string (po.get vm "fscp.hostname_resolution_protocol") = inr protocol ->
  parse_network_hostname_resolution_protocol protocol = inl ex ->
  setup_configuration env vm st = (inl ex, st).
Proof.
  intros Hp Hex. unfold setup_configuration. apply bind_throw.
  unfold setup_fscp_options, vm_string.
  eapply bind_ok; [apply lift_ok; eassumption|]. cbv beta.
  apply bind_throw. unfold lift. rewrite Hex. reflexivity.
Qed.

Lemma contact_loop_ok l eps sa :
  Forall2 (fun s ep => parse_ep_type s = inr ep) l eps ->
  foreach l contact_body sa =
    (inr tt, State (set_contact_list
                      (contact_list (fscp (st_configuration sa)) ++ eps)
                      (st_configuration sa))
               (st_debug sa) (st_trace sa)).
Proof.
  intros Hall. revert sa. induction Hall as [|x ep l eps Hx Hall IH]; intros sa.
  - destruct sa as [c d t]. cbn. rewrite app_nil_r, set_contact_list_id. reflexivity.
  - cbn [foreach]. eapply bind_ok.
    + unfold push_back_contact. eapply bind_ok; [apply lift_ok; eassumption|]. reflexivity.
    + rewrite IH. cbn. rewrite set_contact_list_twice, <- app_assoc. reflexivity.
Qed.

(** X4: the contacts are parsed in list order, and the first one the parser
    rejects ends the assembler with the parser's error: the contacts before
    it are in the contact list of the caller's configuration, the three
    members before the list are assigned, and no file has been opened. *)
Theorem setup_configuration_rejects_contact
    vm st protocol p endpoint ep n l1 eps contact ex l2 :
  po.as_string (po.get vm "fscp.hostname_resolution_protocol") = inr protocol ->
  parse_network_hostname_resolution_protocol protocol = inr p ->
  po.as_string (po.get vm "fscp.listen_on") = inr endpoint ->
  parse_ep_type endpoint = inr ep ->
  po.as_uint (po.get vm "fscp.hello_timeout") = inr n ->
  po.as_strings (po.get vm "fscp.contact") = inr (l1 ++ contact :: l2)%list ->
  Forall2 (fun s e => parse_ep_type s = inr e) l1 eps ->
  parse_ep_type contact = inl ex ->
  setup_configuration env vm st =
    (inl ex,
     State (with_fscp (fun _ => Fscp_configuration p ep n eps) (st_configuration st))
       (st_debug st) (st_trace st)).
Proof.
  intros Hp Hpp He Hep Hn Hl Hall Hex. unfold setup_configuration. apply bind_throw.
  unfold setup_fscp_options, vm_string, vm_uint, vm_strings.
  run_ok. rewrite foreach_app. eapply bind_ok; [apply contact_loop_ok; eassumption|].
  cbn [foreach]. apply bind_throw. apply bind_throw. unfold lift. rewrite Hex.
  unfold to_time_duration. unfold_setters. reflexivity.
Qed.

#[local] Abbreviation authority_body :=
  (fun authority_certificate_file : string =>
     c ← load_trusted_certificate env authority_certificate_file;
     push_back_certificate_authority c).

(** A load that fails has opened its file, and nothing else. *)
Lemma load_with_fails {A} (convert : file -> exception + A) filename st ex :
  fails_to_load env convert filename ex ->
  (f ← load_file env filename; lift (convert f)) st =
    (inl ex, State (st_configuration st) (st_debug st)
               (st_trace st ++ [file_opened filename])%list).
Proof.
  intros [(what & Hopen & ->)|[[Hopen Hother]|(f & Hopen & Hc)]].
  - apply bind_throw. apply load_file_unreadable with what. assumption.
  - apply bind_throw. unfold load_file. eapply bind_ok; [reflexivity|].
    cbv beta. rewrite Hopen. destruct ex; try reflexivity.
    exfalso. eapply Hother. reflexivity.
  - eapply bind_ok; [apply load_file_ok; eassumption|]. unfold lift. rewrite Hc. reflexivity.
Qed.

(** The first authority certificate whose load fails ends the loop with
    the exception of this load: the certificates loaded before it are in
    the list, and no later file is opened. *)
Lemma authority_loop_fails l1 cs p ex l2 sa :
  Forall2 (loads env from_trusted_certificate) l1 cs ->
  fails_to_load env from_trusted_certificate p ex ->
  foreach (l1 ++ p :: l2)%list authority_body sa =
    (inl ex,
     State (set_certificate_authority_list
              (certificate_authority_list (security (st_configuration sa)) ++ cs)
              (st_configuration sa))
       (st_debug sa) (st_trace sa ++ map file_opened l1 ++ [file_opened p])).
Proof.
  intros Hall Hfail. rewrite foreach_app. eapply bind_ok.
  - apply authority_loop_ok. eassumption.
  - cbn [foreach]. apply bind_throw.
    unfold load_trusted_certificate.
    apply bind_throw. rewrite (load_with_fails _ _ _ ex Hfail). cbn.
    rewrite <- app_assoc. reflexivity.
Qed.

(** X17: the certificate authorities are loaded in list order and pushed
    one by one onto the list of the caller's configuration: the first one
    whose load fails ends the assembler with the exception of this load,
    and the object is left with the members of the channel and of the
    identity as assigned and with the certificates loaded before the
    failing one; its file is the last one opened. *)
Theorem setup_configuration_rejects_authority vm st s2 l1 cs p ex l2 :
  (setup_fscp_options vm;; setup_security_identity env vm) st = (inr tt, s2) ->
  po.as_strings (po.get vm "security.authority_certificate_file") = inr (l1 ++ p :: l2)%list ->
  Forall2 (loads env from_trusted_certificate) l1 cs ->
  fails_to_load env from_trusted_certificate p ex ->
  setup_configuration env vm st =
    (inl ex,
     State (set_certificate_authority_list cs (st_configuration s2)) (st_debug s2)
       (st_trace s2 ++ map file_opened l1 ++ [file_opened p])).
Proof.
  intros Hprefix Hlist Hloaded Hfail. unfold setup_configuration.
  apply bind_inr in Hprefix as ([] & sx & Hfscp & Hidentity).
  eapply bind_ok; [eassumption|]. eapply bind_ok; [eassumption|].
  apply bind_throw. unfold setup_certificate_authority_list, vm_strings.
  eapply bind_ok; [apply lift_ok; eassumption|]. cbv beta.
  eapply bind_ok; [reflexivity|]. cbv beta.
  rewrite (authority_loop_fails l1 cs p ex l2) by assumption.
  cbn. rewrite set_certificate_authority_list_twice. reflexivity.
Qed.


Lemma probe_configuration_files_keeps {X} (proj : state -> X) files vm :
  (forall ev, keeps proj (emit ev)) ->
  keeps proj (probe_configuration_files env files vm).
Proof.
  intros Hemit. induction files as [|conf files IH]; cbn [probe_configuration_files].
  - apply keeps_ret.
  - destruct (ifstream env conf).
    + apply keeps_bind; [apply Hemit|]. intros ?.
      apply keeps_bind; [apply Hemit|]. intros ?. apply keeps_lift.
    + apply keeps_bind; [apply Hemit|]. intros ?. assumption.
Qed.

Lemma probe_configuration_files_emits files vm :
  emits is_parse_event (probe_configuration_files env files vm).
Proof.
  induction files as [|conf files IH]; cbn [probe_configuration_files].
  - apply emits_ret.
  - destruct (ifstream env conf); frame.
Qed.

Lemma store_sources_keeps_configuration args :
  keeps st_configuration (store_sources env args).
Proof.
  unfold store_sources. cbv zeta.
  repeat first
    [ apply probe_configuration_files_keeps; intros ?; apply keeps_emit; intros ?; reflexivity
    | frame_step ].
Qed.

Lemma store_sources_keeps_debug args : keeps st_debug (store_sources env args).
Proof.
  unfold store_sources. cbv zeta.
  repeat first
    [ apply probe_configuration_files_keeps; intros ?; apply keeps_debug_emit
    | frame_step ].
Qed.

Lemma store_sources_emits args : emits is_parse_event (store_sources env args).
Proof.
  unfold store_sources. cbv zeta.
  repeat first [ apply probe_configuration_files_emits | frame_step ].
Qed.

Lemma is_file_opened_parse_event ev : is_file_opened ev -> is_parse_event ev.
Proof. intros [path ->]. exact I. Qed.

Lemma parse_options_emits args : emits is_parse_event (parse_options env args).
Proof.
  unfold parse_options, notify_and_setup.
  repeat first
    [ apply store_sources_emits
    | apply (emits_mono is_file_opened); [apply is_file_opened_parse_event|];
      apply setup_configuration_emits
    | frame_step ].
Qed.

(** X9: when [parse_options] returns [true], the script option had a value:
    the validation callback is bound to the script unless its path is
    empty, in which case the callback is the one the caller had; the debug
    flag is raised when the debug option is in the map and is left alone
    otherwise; and the other members of the aggregate are those the
    assembler assigned. *)
Theorem parse_options_true args st st' :
  parse_options env args st = (inr true, st') ->
  exists vm s1 s2 script,
    store_sources env args st = (inr vm, s1) /\
    po.notify vm = None /\
    po.count vm "help" = false /\
    setup_configuration env vm s1 = (inr tt, s2) /\
    po.as_string (po.get vm "security.certificate_validation_script") = inr script /\
    st_configuration st' =
      (if String.eqb script EmptyString then st_configuration s2
       else set_certificate_validation_callback (callback_script script)
              (st_configuration s2)) /\
    callback_of st' =
      (if String.eqb script EmptyString then callback_of st
       else callback_script script) /\
    st_debug st' = (if po.count vm "debug" then true else st_debug st) /\
    st_trace st' = st_trace s2.
Proof.
  unfold parse_options. intros Hrun.
  apply bind_inr in Hrun as (vm & s1 & Hsrc & Hrun).
  unfold notify_and_setup in Hrun.
  apply bind_inr in Hrun as ([] & s1' & Hnotify & Hrun).
  destruct (po.notify vm) eqn:Hn; [discriminate|]. apply ret_inr in Hnotify as [_ ->].
  destruct (po.count vm "help") eqn:Hhelp.
  { apply bind_inr in Hrun as (? & ? & _ & Hrun). discriminate. }
  apply bind_inr in Hrun as ([] & s2 & Hsetup & Hrun).
  apply bind_inr in Hrun as (script & s3 & Hscript & Hrun).
  apply lift_inr in Hscript as [Hscript ->].
  apply bind_inr in Hrun as ([] & s3 & Hcallback & Hrun).
  apply bind_inr in Hrun as ([] & s4 & Hdebug & Hrun).
  apply ret_inr in Hrun as [_ ->].
  exists vm, s1, s2, script. repeat (split; [solve [auto]|]).
  pose proof (setup_configuration_frame env vm s1) as (Hcb & Hdbg & _).
  rewrite Hsetup in Hcb, Hdbg. cbn [snd] in Hcb, Hdbg.
  pose proof (keeps_run _ _ _ _ _ (store_sources_keeps_debug args) Hsrc) as Hd1.
  pose proof (keeps_run _ _ _ _ _ (store_sources_keeps_configuration args) Hsrc) as Hc1.
  assert (callback_of s2 = callback_of st) as Hcb2.
  { rewrite Hcb. unfold callback_of. rewrite Hc1. reflexivity. }
  rewrite <- Hcb2, <- Hd1, <- Hdbg. clear Hcb Hdbg Hd1 Hc1 Hcb2 Hsetup Hsrc.
  destruct (String.eqb script EmptyString); cbn [negb] in Hcallback.
  - apply ret_inr in Hcallback as [_ ->].
    destruct (po.count vm "debug").
    + unfold set_debug in Hdebug. injection Hdebug as <-. auto.
    + apply ret_inr in Hdebug as [_ ->]. auto.
  - apply assign_inr in Hcallback as ->.
    destruct (po.count vm "debug").
    + unfold set_debug in Hdebug. injection Hdebug as <-. unfold callback_of.
      unfold_setters. auto.
    + apply ret_inr in Hdebug as [_ ->]. unfold callback_of. unfold_setters. auto.
Qed.


End Setup_errors.

(** ** The claims on the assembler *)
Section Assembler_claims.
Context `{Core}.
Variable env : environment.

#[local] Abbreviation authority_body :=
  (fun authority_certificate_file : string =>
     c ← load_trusted_certificate env authority_certificate_file;
     push_back_certificate_authority c).






(** The contact list after the channel part. *)
Lemma setup_fscp_options_contacts vm st st' :
  setup_fscp_options vm st = (inr tt, st') ->
  exists contacts,
    po.as_strings (po.get vm "fscp.contact") = inr contacts /\
    Forall2 (fun s ep => parse_ep_type s = inr ep) contacts
      (contact_list (fscp (st_configuration st'))).
Proof.
  unfold setup_fscp_options, vm_string, vm_uint, vm_strings. intros H1.
  apply bind_inr in H1 as (protocol & ? & Hp & H1). apply lift_inr in Hp as [Hp ->].
  apply bind_inr in H1 as (p & ? & Hpp & H1). apply lift_inr in Hpp as [Hpp ->].
  apply bind_inr in H1 as ([] & ? & Ha & H1). apply assign_inr in Ha as ->.
  apply bind_inr in H1 as (endpoint & ? & He & H1). apply lift_inr in He as [He ->].
  apply bind_inr in H1 as (ep & ? & Hep & H1). apply lift_inr in Hep as [Hep ->].
  apply bind_inr in H1 as ([] & ? & Ha & H1). apply assign_inr in Ha as ->.
  apply bind_inr in H1 as (n & ? & Hn & H1). apply lift_inr in Hn as [Hn ->].
  apply bind_inr in H1 as ([] & ? & Ha & H1). apply assign_inr in Ha as ->.
  apply bind_inr in H1 as (contacts & ? & Hc & H1). apply lift_inr in Hc as [Hc ->].
  apply bind_inr in H1 as ([] & ? & Ha & H1). apply assign_inr in Ha as ->.
  apply contact_loop_inr in H1 as Hloop. destruct Hloop as (eps & Hall & Hloop).
  rewrite Hloop in H1. injection H1 as <-.
  exists contacts. split; [assumption|]. unfold_setters. cbn [app]. assumption.
Qed.

(** C10: the assembler overwrites its list members.  When it returns, the
    contact list holds one endpoint for each token of fscp.contact and the
    certificate authority list one certificate for each token of
    security.authority_certificate_file, in order, whatever the lists held
    before the run; so a second run over the same variables map returns
    and leaves the two lists (and the whole aggregate) as the first run
    left them, and so does a run from any other configuration. *)
Theorem setup_configuration_twice vm st st1 :
  setup_configuration env vm st = (inr tt, st1) ->
  exists contacts authorities st2,
    po.as_strings (po.get vm "fscp.contact") = inr contacts /\
    Forall2 (fun s ep => parse_ep_type s = inr ep) contacts
      (contact_list (fscp (st_configuration st1))) /\
    po.as_strings (po.get vm "security.authority_certificate_file") = inr authorities /\
    Forall2 (loads env from_trusted_certificate) authorities
      (certificate_authority_list (security (st_configuration st1))) /\
    setup_configuration env vm st1 = (inr tt, st2) /\
    contact_list (fscp (st_configuration st2)) =
      contact_list (fscp (st_configuration st1)) /\
    certificate_authority_list (security (st_configuration st2)) =
      certificate_authority_list (security (st_configuration st1)) /\
    st_configuration st2 = st_configuration st1 /\
    (forall sa, exists sb,
       setup_configuration env vm sa = (inr tt, sb) /\
       contact_list (fscp (st_configuration sb)) =
         contact_list (fscp (st_configuration st1)) /\
       certificate_authority_list (security (st_configuration sb)) =
         certificate_authority_list (security (st_configuration st1))).
Proof.
  intros Hrun.
  destruct (setup_configuration_inr env vm st st1 Hrun)
    as (F & id & cvm & cs & T & S & ev1 & ev2 & _ & Hcs & _ & Hall).
  pose proof Hrun as Hparts.
  apply setup_configuration_parts in Hparts as (s1 & s2 & s3 & s4 & H1 & H2 & H3 & H4 & H5).
  assert (fscp (st_configuration st1) = fscp (st_configuration s1)) as Hfscp.
  { rewrite (keeps_run _ _ _ _ _ (setup_switch_options_keeps_fscp vm) H5).
    rewrite (keeps_run _ _ _ _ _ (setup_tap_adapter_options_keeps_fscp vm) H4).
    rewrite (keeps_run _ _ _ _ _ (setup_certificate_authority_list_keeps_fscp env vm) H3).
    apply (keeps_run _ _ _ _ _ (setup_security_identity_keeps_fscp env vm) H2). }
  apply setup_fscp_options_contacts in H1 as (contacts & Hcontacts & Heps).
  rewrite <- Hfscp in Heps. clear Hfscp H2 H3 H4 H5.
  destruct Hcs as (authorities & Hauthorities & Hloaded & _).
  rewrite Hall in Hrun. injection Hrun as <-.
  exists contacts, authorities. eexists.
  split; [assumption|]. split; [assumption|].
  split; [assumption|]. split; [assumption|].
  split; [apply Hall|]. cbn.
  split; [reflexivity|]. split; [reflexivity|]. split; [reflexivity|].
  intros sa. eexists. split; [apply Hall|]. cbn. auto.
Qed.

(** C7 (as amended): the certificate authorities are loaded in list order;
    the first one whose load fails makes the assembler, hence
    [parse_options], throw the exception of this load, after the files
    before it and its own file were opened and none after it.  The
    exception names the file when the file could not be opened (the
    opening threw a runtime error); it is the exception of the conversion,
    as the library threw it, when the file opened and is no certificate.
    No caller uses the configuration after the failure: [main] reports
    the exception and returns the failure status, and starts no core. *)
Theorem authority_certificate_load_failure args vm s1 s2 l1 cs p ex l2 :
  store_sources env args (State default_configuration false []) = (inr vm, s1) ->
  po.notify vm = None ->
  po.count vm "help" = false ->
  (setup_fscp_options vm;; setup_security_identity env vm) s1 = (inr tt, s2) ->
  po.as_strings (po.get vm "security.authority_certificate_file") = inr (l1 ++ p :: l2)%list ->
  Forall2 (loads env from_trusted_certificate) l1 cs ->
  fails_to_load env from_trusted_certificate p ex ->
  let run := parse_options env args (State default_configuration false []) in
  let trace := (st_trace s2 ++ map file_opened l1 ++ [file_opened p])%list in
  run.1 = inl ex /\
  st_trace run.2 = trace /\
  main env args = (EXIT_FAILURE, (trace ++ [cerr_error ex])%list) /\
  (forall c d, ~ In (core_started c d) (main env args).2).
Proof.
  intros Hsrc Hnotify Hhelp Hprefix Hlist Hloaded Hfail run trace. subst run.
  assert (parse_options env args (State default_configuration false []) =
    (inl ex,
     State (set_certificate_authority_list cs (st_configuration s2)) (st_debug s2) trace))
    as Hparse.
  { unfold parse_options. eapply bind_ok; [eassumption|].
    unfold notify_and_setup. rewrite Hnotify, Hhelp.
    eapply bind_ok; [reflexivity|]. cbv beta.
    apply bind_throw. unfold setup_configuration.
    apply bind_inr in Hprefix as ([] & sx & Hfscp & Hidentity).
    eapply bind_ok; [eassumption|]. eapply bind_ok; [eassumption|].
    apply bind_throw. unfold setup_certificate_authority_list, vm_strings.
    eapply bind_ok; [apply lift_ok; eassumption|]. cbv beta.
    eapply bind_ok; [reflexivity|]. cbv beta.
    rewrite (authority_loop_fails env l1 cs p ex l2) by assumption.
    cbn. rewrite set_certificate_authority_list_twice. reflexivity. }
  pose proof (main_throws _ _ _ _ Hparse) as Hmain. cbn [st_trace] in Hmain.
  destruct (parse_options_emits env args (State default_configuration false []))
    as (events & Htrace & Hall).
  rewrite Hparse in Htrace. cbn [snd st_trace app] in Htrace.
  rewrite Hparse, Hmain. cbn [fst snd st_trace].
  repeat split.
  intros c d Hin. apply in_app_or in Hin as [Hin|[Hin|[]]]; [|discriminate].
  rewrite Htrace in Hin. rewrite Forall_forall in Hall.
  apply list_elem_of_In in Hin. exact (Hall _ Hin).
Qed.

End Assembler_claims.

(** ** The configuration file *)
Section File_facts.
Context `{Core}.
Variable env : environment.

Lemma probe_configuration_files_none files vm st :
  Forall (fun path => ifstream env path = None) files ->
  probe_configuration_files env files vm st =
    (inr vm, State (st_configuration st) (st_debug st) (st_trace st ++ probes files)).
Proof.
  intros Hall. revert st. induction Hall as [|conf files Hconf Hall IH]; intros st.
  - destruct st. cbn. rewrite app_nil_r. reflexivity.
  - cbn [probe_configuration_files]. rewrite Hconf.
    eapply bind_ok; [reflexivity|]. rewrite IH. cbn. rewrite <- app_assoc. reflexivity.
Qed.

Lemma probe_configuration_files_first l1 conf l2 lines vm st :
  Forall (fun path => ifstream env path = None) l1 ->
  ifstream env conf = Some lines ->
  probe_configuration_files env (l1 ++ conf :: l2) vm st =
    (po.store lexical_cast_uint configuration_options
       (po.parse_config_file lines configuration_options) vm,
     State (st_configuration st) (st_debug st)
       (st_trace st ++ probes l1 ++ [ifstream_opened conf true; cout_reading conf])).
Proof.
  intros Hall Hconf. revert st. induction Hall as [|c files Hc Hall IH]; intros st.
  - cbn [app probe_configuration_files]. rewrite Hconf.
    eapply bind_ok; [reflexivity|]. eapply bind_ok; [reflexivity|].
    unfold lift. cbv [emit st_configuration st_debug st_trace]. cbn [probes map app].
    rewrite <- app_assoc. reflexivity.
  - cbn [app probe_configuration_files]. rewrite Hc.
    eapply bind_ok; [reflexivity|]. rewrite IH.
    cbv [emit st_configuration st_debug st_trace]. cbn [probes map].
    rewrite <- !app_assoc. reflexivity.
Qed.

(** [store_sources] up to the choice between a supplied path and the
    discovery paths. *)
Lemma store_sources_discovery args st cl vm1 :
  po.parse_command_line args all_options = inr cl ->
  po.store lexical_cast_uint all_options cl po.empty_map = inr vm1 ->
  no_supplied_path env vm1 ->
  store_sources env args st =
    (vm ← probe_configuration_files env (get_configuration_files env) vm1;
     emit (cerr_warning (get_configuration_files env));;
     mret vm) st.
Proof.
  intros Hcl Hvm1 Hpath. unfold store_sources.
  eapply bind_ok; [apply lift_ok; eassumption|]. cbv beta.
  eapply bind_ok; [apply lift_ok; eassumption|]. cbv beta.
  eapply (bind_ok _ _ _ EmptyString).
  { destruct Hpath as [[[-> Hp]|[-> Hp]]|[-> Hp]]; [apply lift_ok; assumption| |];
      rewrite Hp; reflexivity. }
  reflexivity.
Qed.

(** X12: without a supplied path, the discovery paths are probed in order and
    the first one that opens is the file that is read; the paths after it
    are not opened.  Its values are stored under the command line's; an
    error of storing them is thrown as it is; and when the store returns,
    the warning that lists the discovery paths is printed all the same. *)
Theorem discovery_reads_first_file args st cl vm1 l1 conf l2 lines :
  po.parse_command_line args all_options = inr cl ->
  po.store lexical_cast_uint all_options cl po.empty_map = inr vm1 ->
  no_supplied_path env vm1 ->
  get_configuration_files env = (l1 ++ conf :: l2)%list ->
  Forall (fun path => ifstream env path = None) l1 ->
  ifstream env conf = Some lines ->
  let found := (st_trace st ++ probes l1 ++
                [ifstream_opened conf true; cout_reading conf])%list in
  store_sources env args st =
    match po.store lexical_cast_uint configuration_options
            (po.parse_config_file lines configuration_options) vm1 with
    | inr vm =>
        (inr vm,
         State (st_configuration st) (st_debug st)
           (found ++ [cerr_warning (l1 ++ conf :: l2)]))
    | inl ex => (inl ex, State (st_configuration st) (st_debug st) found)
    end.
Proof.
  intros Hcl Hvm1 Hpath Hfiles Hall Hconf found.
  rewrite (store_sources_discovery args st cl vm1 Hcl Hvm1 Hpath), Hfiles.
  rewrite bind_run, (probe_configuration_files_first l1 conf l2 lines vm1 st Hall Hconf).
  destruct (po.store _ _ _ _) as [ex|vm]; reflexivity.
Qed.

(** X13: without a supplied path and without a discovery path that opens,
    every discovery path is probed in order, the warning lists them, and
    the variables map is the one of the command line and the defaults. *)
Theorem discovery_finds_nothing args st cl vm1 :
  po.parse_command_line args all_options = inr cl ->
  po.store lexical_cast_uint all_options cl po.empty_map = inr vm1 ->
  no_supplied_path env vm1 ->
  Forall (fun path => ifstream env path = None) (get_configuration_files env) ->
  store_sources env args st =
    (inr vm1,
     State (st_configuration st) (st_debug st)
       (st_trace st ++ probes (get_configuration_files env) ++
        [cerr_warning (get_configuration_files env)])).
Proof.
  intros Hcl Hvm1 Hpath Hall.
  rewrite (store_sources_discovery args st cl vm1 Hcl Hvm1 Hpath).
  rewrite bind_run, (probe_configuration_files_none _ vm1 st Hall).
  cbv beta iota. eapply bind_ok; [reflexivity|].
  cbv [mret M_ret st_configuration st_debug st_trace]. rewrite <- app_assoc. reflexivity.
Qed.

End File_facts.

(** ** What a configuration file can set *)
Section Store_more.
Variable lexical_cast : string -> option N.

#[local] Abbreviation store_options := (po.store_options lexical_cast).

(** The first loop leaves alone a name that every option of the source
    either does not have or has unregistered. *)
Lemma store_options_other desc opts xm final nf xm' nf' name :
  store_options desc opts xm final nf = inr (xm', nf') ->
  (forall o, In o opts -> po.string_key o = name -> po.unregistered o = true) ->
  xm' !! name = xm !! name /\ (name ∈ nf' -> name ∈ nf).
Proof.
  revert xm nf. induction opts as [|o opts IH]; intros xm nf Hrun Hother.
  - cbn in Hrun. injection Hrun as <- <-. auto.
  - assert (forall o', In o' opts -> po.string_key o' = name -> po.unregistered o' = true)
      as Hrest by (intros o' Hin; apply Hother; right; assumption).
    cbn [po.store_options] in Hrun. cbv zeta in Hrun.
    destruct (String.eqb (po.string_key o) EmptyString); [eauto|].
    destruct (po.unregistered o) eqn:Hunreg; [eauto|].
    case_bool_decide as Hfin; [eauto|].
    destruct (po.find_nothrow desc (po.string_key o)); [|discriminate].
    destruct (po.parse _ _ _ _ _); [discriminate|].
    assert (po.string_key o <> name) as Hne.
    { intros Heq. rewrite (Hother o (or_introl eq_refl) Heq) in Hunreg. discriminate. }
    apply IH in Hrun as [Hxm Hnf]; [|assumption].
    split; [rewrite Hxm; apply lookup_insert_ne; assumption|].
    intros Hin. apply Hnf in Hin. apply elem_of_union in Hin as [Hin|Hin]; [|assumption].
    apply elem_of_singleton in Hin. congruence.
Qed.

Lemma store_defaults_other desc xm required name :
  po.find_nothrow desc name = None ->
  (po.store_defaults desc xm required).1 !! name = xm !! name.
Proof.
  revert xm required. induction desc as [|d desc IH]; intros xm required Hfind; [reflexivity|].
  cbn [po.find_nothrow] in Hfind.
  destruct (String.eqb (po.key d) name) eqn:Hkey; [discriminate|].
  apply String.eqb_neq in Hkey.
  cbn [po.store_defaults]. cbv zeta. rewrite IH by assumption.
  destruct (xm !! po.key d); [reflexivity|].
  destruct (po.apply_default (po.semantic d)); [|reflexivity].
  apply lookup_insert_ne. assumption.
Qed.

(** The second loop gives a name it fills a value that is marked as a
    default. *)
Lemma store_defaults_defaulted desc xm required name :
  (forall vv, xm !! name = Some vv -> po.m_defaulted vv = true) ->
  forall vv, (po.store_defaults desc xm required).1 !! name = Some vv ->
             po.m_defaulted vv = true.
Proof.
  revert xm required. induction desc as [|d desc IH]; intros xm required Hxm; [exact Hxm|].
  cbn [po.store_defaults]. cbv zeta. apply IH.
  destruct (xm !! po.key d) eqn:Hd; [exact Hxm|].
  destruct (po.apply_default (po.semantic d)); [|exact Hxm].
  intros vv. rewrite lookup_insert. case_decide as Heq; [|apply Hxm].
  intros [= <-]. reflexivity.
Qed.

Lemma parse_config_file_unregistered lines desc name o :
  po.find_nothrow desc name = None ->
  In o (po.parse_config_file lines desc) -> po.string_key o = name ->
  po.unregistered o = true.
Proof.
  intros Hfind Hin Hkey. unfold po.parse_config_file in Hin.
  apply in_map_iff in Hin as ([n val] & <- & _). cbn in *. subst n.
  rewrite Hfind. reflexivity.
Qed.

Lemma parse_config_file_registered lines desc name val d :
  po.find_nothrow desc name = Some d ->
  In (name, val) lines ->
  In (po.Basic_option name [val] false) (po.parse_config_file lines desc).
Proof.
  intros Hfind Hin. unfold po.parse_config_file. apply in_map_iff.
  exists (name, val). split; [|assumption]. cbn. rewrite Hfind. reflexivity.
Qed.

(** A configuration file stored under a description changes no name that
    the description does not have. *)
Lemma store_config_file_other desc lines vm vm' name :
  po.store lexical_cast desc (po.parse_config_file lines desc) vm = inr vm' ->
  po.find_nothrow desc name = None ->
  po.m vm' !! name = po.m vm !! name.
Proof.
  unfold po.store. intros Hrun Hfind.
  destruct (po.store_options _ _ _ _ _ _) as [e|[xm nf]] eqn:Hopts; [discriminate|].
  destruct (po.store_defaults desc xm (po.m_required vm)) as [xm2 required] eqn:Hdef.
  injection Hrun as <-. cbn [po.m].
  pose proof (store_defaults_other desc xm (po.m_required vm) name Hfind) as Hkeep.
  rewrite Hdef in Hkeep. cbn [fst] in Hkeep. rewrite Hkeep.
  eapply store_options_other in Hopts as [Hxm _]; [exact Hxm|].
  intros o. apply parse_config_file_unregistered. assumption.
Qed.

(** A name the command line does not have is, after the command line is
    stored, not final and either without a value or with its default. *)
Lemma store_command_line_absent desc args cl vm1 name :
  po.parse_command_line args desc = inr cl ->
  po.store lexical_cast desc cl po.empty_map = inr vm1 ->
  ~ In name (map fst args) ->
  (name ∉ po.m_final vm1) /\
  (forall vv, po.m vm1 !! name = Some vv -> po.m_defaulted vv = true).
Proof.
  intros Hcl Hvm1 Hnotin. apply parse_command_line_inr in Hcl as [-> _].
  unfold po.store in Hvm1. cbn [po.m po.m_final po.m_required po.empty_map] in Hvm1.
  destruct (po.store_options _ _ _ _ _ _) as [e|[xm nf]] eqn:Hopts; [discriminate|].
  destruct (po.store_defaults desc xm []) as [xm2 required] eqn:Hdef.
  injection Hvm1 as <-. cbn [po.m po.m_final].
  eapply (store_options_other _ _ _ _ _ _ _ name) in Hopts as [Hxm Hnf].
  - split.
    + intros Hin. apply elem_of_union in Hin as [Hin|Hin]; [set_solver|].
      apply Hnf in Hin. set_solver.
    + pose proof (store_defaults_defaulted desc xm [] name) as Hd.
      rewrite Hdef in Hd. apply Hd. intros vv. rewrite Hxm, lookup_empty. discriminate.
  - intros o Hin Hkey. exfalso. apply Hnotin.
    apply in_map_iff in Hin as ([n tokens] & <- & Hin). cbn in Hkey. subst n.
    apply in_map_iff. exists (name, tokens). auto.
Qed.

Lemma store_options_app desc l1 l2 xm final nf :
  store_options desc (l1 ++ l2)%list xm final nf =
    match store_options desc l1 xm final nf with
    | inl e => inl e
    | inr (xm1, nf1) => store_options desc l2 xm1 final nf1
    end.
Proof.
  revert xm nf. induction l1 as [|o l1 IH]; intros xm nf; [reflexivity|].
  cbn [app po.store_options]. cbv zeta.
  destruct (String.eqb (po.string_key o) EmptyString); [apply IH|].
  destruct (po.unregistered o); [apply IH|].
  case_bool_decide; [apply IH|].
  destruct (po.find_nothrow desc (po.string_key o)); [|reflexivity].
  destruct (po.parse _ _ _ _ _); [reflexivity|]. apply IH.
Qed.

(** The first loop throws when a source has a single-valued option twice,
    unless an earlier source has made the name final. *)
Lemma store_options_twice desc l1 t1 l2 t2 l3 xm final nf name d k dflt req :
  po.find_nothrow desc name = Some d -> po.semantic d = po.typed k dflt req ->
  k <> po.K_strings -> name <> EmptyString -> name ∉ final ->
  exists ex,
    store_options desc
      (l1 ++ po.Basic_option name t1 false :: l2 ++ po.Basic_option name t2 false :: l3)%list
      xm final nf = inl ex.
Proof.
  intros Hfind Hsem Hk Hne Hnotfin.
  destruct (store_options _ _ _ _ _) as [ex|[xm' nf']] eqn:Hrun; [eauto|]. exfalso.
  rewrite store_options_app in Hrun.
  destruct (store_options desc l1 xm final nf) as [e|[xm1 nf1]]; [discriminate|].
  cbn [po.store_options po.string_key po.unregistered po.value] in Hrun. cbv zeta in Hrun.
  apply String.eqb_neq in Hne as Hne'. rewrite Hne' in Hrun.
  rewrite bool_decide_eq_false_2 in Hrun by assumption.
  rewrite Hfind, Hsem in Hrun.
  destruct (po.parse lexical_cast name (po.typed k dflt req) _ t1) as [e|a] eqn:Hparse;
    [discriminate|].
  assert (po.m_defaulted (if po.m_defaulted (default po.empty_value (xm1 !! name))
                          then po.empty_value else default po.empty_value (xm1 !! name))
          = false) as Hdefaulted.
  { destruct (po.m_defaulted (default po.empty_value (xm1 !! name))) eqn:Hd;
      [reflexivity|assumption]. }
  rewrite Hdefaulted in Hrun.
  eapply store_options_occupied in Hrun as [_ Hrest]; try eassumption.
  2: apply lookup_insert_eq.
  2: eapply parse_not_empty; eassumption.
  specialize (Hrest (po.Basic_option name t2 false)).
  cbn in Hrest. discriminate Hrest; [|reflexivity].
  apply in_or_app. right. left. reflexivity.
Qed.

Lemma store_twice desc l1 t1 l2 t2 l3 vm name d k dflt req :
  po.find_nothrow desc name = Some d -> po.semantic d = po.typed k dflt req ->
  k <> po.K_strings -> name <> EmptyString -> name ∉ po.m_final vm ->
  exists ex,
    po.store lexical_cast desc
      (l1 ++ po.Basic_option name t1 false :: l2 ++ po.Basic_option name t2 false :: l3)%list
      vm = inl ex.
Proof.
  intros Hfind Hsem Hk Hne Hnotfin. unfold po.store.
  destruct (store_options_twice desc l1 t1 l2 t2 l3 (po.m vm) (po.m_final vm) ∅
              name d k dflt req Hfind Hsem Hk Hne Hnotfin) as [ex ->].
  eauto.
Qed.

Lemma parse_config_file_app l1 l2 desc :
  po.parse_config_file (l1 ++ l2)%list desc =
    (po.parse_config_file l1 desc ++ po.parse_config_file l2 desc)%list.
Proof. unfold po.parse_config_file. apply map_app. Qed.

Lemma parse_config_file_cons name val l desc d :
  po.find_nothrow desc name = Some d ->
  po.parse_config_file ((name, val) :: l) desc =
    po.Basic_option name [val] false :: po.parse_config_file l desc.
Proof. intros Hfind. unfold po.parse_config_file. cbn. rewrite Hfind. reflexivity. Qed.

End Store_more.

Section File_values.
Context `{Core}.
Variable env : environment.

(** X14: a configuration file can set configuration options only: after the
    sources are stored, a name that is not a configuration option (help,
    debug, configuration_file, or an unknown name) is in the map exactly
    as the command line left it. *)
Theorem configuration_file_sets_configuration_options_only args st vm st' cl vm1 name :
  po.parse_command_line args all_options = inr cl ->
  po.store lexical_cast_uint all_options cl po.empty_map = inr vm1 ->
  store_sources env args st = (inr vm, st') ->
  po.find_nothrow configuration_options name = None ->
  po.get vm name = po.get vm1 name /\ po.count vm name = po.count vm1 name.
Proof.
  intros Hcl Hvm1 Hrun Hfind.
  apply store_sources_inr in Hrun as (cl' & vm1' & Hcl' & Hvm1' & Hvm).
  rewrite Hcl in Hcl'. injection Hcl' as <-. rewrite Hvm1 in Hvm1'. injection Hvm1' as <-.
  destruct Hvm as [->|(lines & Hvm)]; [auto|].
  pose proof (store_config_file_other _ _ _ _ _ name Hvm Hfind) as Hsame.
  unfold po.get, po.count. rewrite Hsame. auto.
Qed.

(** X15: the file fills what the command line has not set: a single-valued
    configuration option that is not on the command line and is in the
    file that is stored gets the value of the file's token, not its
    default; and a file that has the option twice, with whatever values,
    makes the store throw. *)
Theorem configuration_file_fills_absent_option args cl vm1 name d k dflt req :
  po.parse_command_line args all_options = inr cl ->
  po.store lexical_cast_uint all_options cl po.empty_map = inr vm1 ->
  ~ In name (map fst args) ->
  po.find_nothrow configuration_options name = Some d ->
  po.semantic d = po.typed k dflt req ->
  k <> po.K_strings ->
  (forall lines vm val,
     po.store lexical_cast_uint configuration_options
       (po.parse_config_file lines configuration_options) vm1 = inr vm ->
     In (name, val) lines ->
     exists a,
       po.parse lexical_cast_uint name (po.typed k dflt req) po.any_empty [val] = inr a /\
       po.get vm name = po.Variable_value a false) /\
  (forall l1 v1 l2 v2 l3,
     exists ex,
       po.store lexical_cast_uint configuration_options
         (po.parse_config_file (l1 ++ (name, v1) :: l2 ++ (name, v2) :: l3)
            configuration_options) vm1 = inl ex).
Proof.
  intros Hcl Hvm1 Hnotin Hfind Hsem Hk.
  destruct (store_command_line_absent _ _ _ _ _ name Hcl Hvm1 Hnotin) as [Hfinal Hdefaulted].
  assert (name <> EmptyString) as Hne by (intros ->; discriminate).
  split.
  - intros lines vm val Hvm Hin.
    unfold po.store in Hvm.
    destruct (po.store_options _ _ _ _ _ _) as [e|[xm nf]] eqn:Hopts; [discriminate|].
    destruct (po.store_defaults configuration_options xm (po.m_required vm1))
      as [xm2 required] eqn:Hdef.
    injection Hvm as <-.
    eapply (store_options_single _ _ _ _ _ _ _ _ name [val] d k dflt req) in Hopts
      as (a & Hparse & Hxm); try eassumption.
    + exists a. split; [assumption|]. unfold po.get. cbn [po.m].
      pose proof (store_defaults_lookup configuration_options xm (po.m_required vm1) name)
        as Hkeep.
      rewrite Hdef in Hkeep. cbn [fst] in Hkeep.
      rewrite Hkeep by (rewrite Hxm; eauto). rewrite Hxm. reflexivity.
    + eapply parse_config_file_registered; eassumption.
  - intros l1 v1 l2 v2 l3.
    rewrite parse_config_file_app, (parse_config_file_cons _ _ _ _ _ Hfind).
    rewrite parse_config_file_app, (parse_config_file_cons _ _ _ _ _ Hfind).
    eapply store_twice; eassumption.
Qed.

End File_values.

(** ** The kinds of the stored values *)
Section Kinds.
Context `{Collaborators}.

#[local] Abbreviation store_options := (po.store_options lexical_cast_uint).

Lemma parse_well_kinded name s store tokens a :
  po.parse lexical_cast_uint name s store tokens = inr a -> well_kinded s a.
Proof.
  unfold po.parse, po.get_single_string.
  destruct s as [|[] ? ?]; destruct store; try discriminate;
    repeat (match goal with
            | |- context [match ?x with _ => _ end] => destruct x; try discriminate
            end);
    intros [= <-]; exact I.
Qed.

Lemma find_nothrow_In desc name d :
  po.find_nothrow desc name = Some d -> In d desc /\ po.key d = name.
Proof.
  induction desc as [|d' desc IH]; [discriminate|]. cbn.
  destruct (String.eqb (po.key d') name) eqn:Heq.
  - intros [= <-]. apply String.eqb_eq in Heq. auto.
  - intros Hfind. apply IH in Hfind as [Hin Hkey]. auto.
Qed.

Lemma agrees_find ref desc name d :
  agrees ref desc -> po.find_nothrow desc name = Some d ->
  po.find_nothrow ref name = Some d.
Proof.
  intros Hagree Hfind. apply find_nothrow_In in Hfind as [Hin <-].
  unfold agrees in Hagree. rewrite Forall_forall in Hagree.
  apply list_elem_of_In in Hin. apply (Hagree d Hin).
Qed.

Lemma store_options_kinded ref desc opts xm final nf xm' nf' :
  agrees ref desc ->
  store_options desc opts xm final nf = inr (xm', nf') ->
  kinded ref xm -> kinded ref xm'.
Proof.
  intros Hagree. revert xm nf. induction opts as [|o opts IH]; intros xm nf Hrun Hxm.
  - cbn in Hrun. injection Hrun as <- <-. assumption.
  - cbn [po.store_options] in Hrun. cbv zeta in Hrun.
    destruct (String.eqb (po.string_key o) EmptyString); [eauto|].
    destruct (po.unregistered o); [eauto|].
    case_bool_decide as Hfin; [eauto|].
    destruct (po.find_nothrow desc (po.string_key o)) as [d|] eqn:Hfind; [|discriminate].
    destruct (po.parse _ _ _ _ _) as [e|a] eqn:Hparse; [discriminate|].
    eapply IH; [eassumption|].
    intros name vv d' Hlookup Hd'. rewrite lookup_insert in Hlookup.
    case_decide as Heq; [|eauto].
    injection Hlookup as <-. subst name. cbn [po.v].
    rewrite (agrees_find ref desc _ d Hagree Hfind) in Hd'. injection Hd' as <-.
    eapply parse_well_kinded. eassumption.
Qed.

Lemma store_defaults_kinded ref desc xm required :
  agrees ref desc -> kinded ref xm ->
  kinded ref (po.store_defaults desc xm required).1.
Proof.
  intros Hagree. revert xm required.
  induction Hagree as [|d desc [Hd Hdef] Hagree IH]; intros xm required Hxm; [assumption|].
  cbn [po.store_defaults]. cbv zeta. apply IH.
  destruct (xm !! po.key d) eqn:Hkey; [assumption|].
  destruct (po.apply_default (po.semantic d)) as [def|] eqn:Hdefault; [|assumption].
  intros name vv d' Hlookup Hd'. rewrite lookup_insert in Hlookup.
  case_decide as Heq; [|eauto].
  injection Hlookup as <-. subst name. cbn [po.v].
  rewrite Hd in Hd'. injection Hd' as <-. auto.
Qed.

Lemma store_defaults_present desc xm required d :
  In d desc -> is_Some (po.apply_default (po.semantic d)) ->
  is_Some ((po.store_defaults desc xm required).1 !! po.key d).
Proof.
  revert xm required. induction desc as [|d' desc IH]; intros xm required Hin Hdef; [destruct Hin|].
  cbn [po.store_defaults]. cbv zeta. destruct Hin as [->|Hin]; [|eauto].
  apply store_defaults_keeps.
  destruct (xm !! po.key d) eqn:Hkey; [rewrite Hkey; eauto|].
  destruct Hdef as [def ->]. rewrite lookup_insert_eq. eauto.
Qed.

Lemma store_kinded ref desc opts vm vm' :
  agrees ref desc ->
  po.store lexical_cast_uint desc opts vm = inr vm' ->
  kinded ref (po.m vm) -> kinded ref (po.m vm').
Proof.
  intros Hagree Hrun Hvm. unfold po.store in Hrun.
  destruct (po.store_options _ _ _ _ _ _) as [e|[xm nf]] eqn:Hopts; [discriminate|].
  pose proof (store_defaults_kinded ref desc xm (po.m_required vm) Hagree
                (store_options_kinded ref desc _ _ _ _ _ _ Hagree Hopts Hvm)) as Hk.
  destruct (po.store_defaults desc xm (po.m_required vm)). injection Hrun as <-. exact Hk.
Qed.

Lemma store_present desc opts vm vm' d :
  po.store lexical_cast_uint desc opts vm = inr vm' ->
  In d desc -> is_Some (po.apply_default (po.semantic d)) ->
  is_Some (po.m vm' !! po.key d).
Proof.
  intros Hrun Hin Hdef. unfold po.store in Hrun.
  destruct (po.store_options _ _ _ _ _ _) as [e|[xm nf]]; [discriminate|].
  pose proof (store_defaults_present desc xm (po.m_required vm) d Hin Hdef) as Hp.
  destruct (po.store_defaults desc xm (po.m_required vm)). injection Hrun as <-. exact Hp.
Qed.

Lemma store_keeps desc opts vm vm' name :
  po.store lexical_cast_uint desc opts vm = inr vm' ->
  is_Some (po.m vm !! name) -> is_Some (po.m vm' !! name).
Proof.
  intros Hrun Hsome. unfold po.store in Hrun.
  destruct (po.store_options _ _ _ _ _ _) as [e|[xm nf]] eqn:Hopts; [discriminate|].
  apply store_options_explicit in Hopts as (Hkeep & _ & _).
  pose proof (store_defaults_keeps desc xm (po.m_required vm) name (Hkeep _ Hsome)) as Hp.
  destruct (po.store_defaults desc xm (po.m_required vm)). injection Hrun as <-. exact Hp.
Qed.

Lemma all_options_agrees : agrees all_options all_options.
Proof. repeat constructor; intros def [= <-]; exact I. Qed.

Lemma configuration_options_agrees : agrees all_options configuration_options.
Proof. repeat constructor; intros def [= <-]; exact I. Qed.

Lemma well_kinded_reads_as s vv :
  well_kinded s (po.v vv) -> reads_as s vv.
Proof.
  unfold well_kinded, reads_as, has_kind, po.as_string, po.as_bool, po.as_uint,
    po.as_strings.
  destruct s as [|[] ? ?]; destruct (po.v vv); intros []; eauto.
Qed.

End Kinds.

Section Kinds_of_sources.
Context `{Core}.
Variable env : environment.

Lemma store_sources_kinded args st vm st' :
  store_sources env args st = (inr vm, st') ->
  kinded all_options (po.m vm) /\
  forall d, In d all_options -> is_Some (po.apply_default (po.semantic d)) ->
            is_Some (po.m vm !! po.key d).
Proof.
  intros Hrun. apply store_sources_inr in Hrun as (cl & vm1 & _ & Hvm1 & Hvm).
  assert (kinded all_options (po.m vm1)) as Hk1.
  { eapply store_kinded; [apply all_options_agrees|eassumption|].
    intros name vv d Hlookup. cbn in Hlookup. rewrite lookup_empty in Hlookup. discriminate. }
  assert (forall d, In d all_options -> is_Some (po.apply_default (po.semantic d)) ->
                    is_Some (po.m vm1 !! po.key d)) as Hp1.
  { intros d. eapply store_present. eassumption. }
  destruct Hvm as [->|(lines & Hvm)]; [auto|]. split.
  - eapply store_kinded; [apply configuration_options_agrees|eassumption|assumption].
  - intros d Hin Hdef. eapply store_keeps; [eassumption|]. auto.
Qed.

(** X16: after the sources are stored, the value of every option of the schema
    has the type the schema declares, and every option with a default has
    a value; after [po::notify] has passed, so has every required option.
    Hence [as<T>()] returns for every option that has a default or is
    required, which are the options [setup_configuration] reads without a
    test; the validation script option is of neither sort. *)
Theorem stored_values_read_as_declared args st vm st' name d :
  store_sources env args st = (inr vm, st') ->
  po.find_nothrow all_options name = Some d ->
  (po.count vm name = true -> reads_as (po.semantic d) (po.get vm name)) /\
  (is_Some (po.apply_default (po.semantic d)) -> po.count vm name = true) /\
  (po.is_required (po.semantic d) = true -> po.notify vm = None ->
   po.count vm name = true).
Proof.
  intros Hrun Hfind.
  pose proof (store_sources_required env args st vm st' Hrun) as Hreq.
  apply store_sources_kinded in Hrun as [Hkinded Hpresent].
  pose proof Hfind as Hin. apply find_nothrow_In in Hin as [Hin Hkey].
  split; [|split].
  - unfold po.count, po.get. intros Hcount. apply bool_decide_eq_true in Hcount.
    destruct (po.m vm !! name) as [vv|] eqn:Hlookup; [|destruct Hcount; discriminate].
    apply well_kinded_reads_as. eapply Hkinded; eassumption.
  - intros Hdef. unfold po.count. apply bool_decide_eq_true. rewrite <- Hkey. auto.
  - intros Hrequired Hnotify.
    rewrite (notify_required vm Hreq) in Hnotify.
    assert (In name ["security.signature_certificate_file";
                     "security.signature_private_key_file"]) as Hname.
    { rewrite <- Hkey. clear -Hin Hrequired. vm_compute in Hin.
      repeat (destruct Hin as [<-|Hin]; [first [discriminate Hrequired | cbn; auto]|]).
      destruct Hin. }
    destruct (resolves vm "security.signature_certificate_file") eqn:Hc; [|discriminate].
    destruct (resolves vm "security.signature_private_key_file") eqn:Hk; [|discriminate].
    unfold resolves in Hc, Hk. apply andb_true_iff in Hc as [Hc _], Hk as [Hk _].
    destruct Hname as [<-|[<-|[]]]; assumption.
Qed.

End Kinds_of_sources.

(** ** The flags of the caller *)
Section Flags.
Context `{Core}.
Variable env : environment.

(** X10: [parse_options] touches the debug flag and the validation callback in
    its last statements only: unless it returns [true], both are as the
    caller had them. *)
Theorem parse_options_changes_flags_only_on_true args st :
  (parse_options env args st).1 <> inr true ->
  st_debug (parse_options env args st).2 = st_debug st /\
  callback_of (parse_options env args st).2 = callback_of st.
Proof.
  unfold parse_options. rewrite bind_run.
  pose proof (store_sources_keeps_debug env args st) as Hd1.
  pose proof (store_sources_keeps_configuration env args st) as Hc1.
  destruct (store_sources env args st) as [[ex|vm] s1]; cbn [fst snd] in *.
  { intros _. unfold callback_of. rewrite Hc1. auto. }
  assert (callback_of s1 = callback_of st) as Hcb1
    by (unfold callback_of; rewrite Hc1; reflexivity).
  unfold notify_and_setup. rewrite bind_run.
  destruct (po.notify vm); cbv [throw mret M_ret]; cbv beta iota; cbn [fst snd]; [auto|].
  destruct (po.count vm "help").
  { intros _. cbn. auto. }
  rewrite bind_run.
  pose proof (setup_configuration_keeps_callback env vm s1) as Hcb2.
  pose proof (setup_configuration_keeps_debug env vm s1) as Hd2.
  destruct (setup_configuration env vm s1) as [[ex|[]] s2]; cbn [fst snd] in *.
  { intros _. cbv beta iota. cbn [fst snd]. split; congruence. }
  cbv beta iota. rewrite bind_run.
  destruct (get_certificate_validation_script vm) as [ex|script];
    unfold lift; cbv beta iota; cbn [fst snd].
  { intros _. split; congruence. }
  intros Hnot. exfalso. apply Hnot.
  destruct (negb (String.eqb script EmptyString)), (po.count vm "debug"); reflexivity.
Qed.

End Flags.

(** * The assembler claims and the further properties on the concrete instance *)

(** A run that returns, from a test that evaluates to a boolean. *)
Lemma run_returned {A} (c : M A) (st : state) (dflt : A) :
  match (c st).1 with inr _ => true | inl _ => false end = true ->
  c st = (inr (match (c st).1 with inr a => a | inl _ => dflt end), (c st).2).
Proof. destruct (c st) as [[e|a] s]; cbn; [discriminate|reflexivity]. Qed.

Lemma store_sources_returned env args :
  match (store_sources env args start).1 with inr _ => true | inl _ => false end = true ->
  store_sources env args start = (inr (sources env args), stored env args).
Proof. unfold sources, stored. apply run_returned. Qed.

Lemma variables_stored args cl :
  po.parse_command_line args all_options = inr cl ->
  match po.store lexical_cast all_options cl po.empty_map with
  | inr _ => true
  | inl _ => false
  end = true ->
  po.store lexical_cast all_options cl po.empty_map = inr (variables args).
Proof.
  unfold variables. intros ->.
  destruct (po.store lexical_cast all_options cl po.empty_map); [discriminate|reflexivity].
Qed.

Lemma file_values_stored env args cl conf rest lines :
  po.parse_command_line args all_options = inr cl ->
  match po.store lexical_cast all_options cl po.empty_map with
  | inr _ => true
  | inl _ => false
  end = true ->
  no_supplied_path env (variables args) ->
  get_configuration_files env = conf :: rest ->
  ifstream env conf = Some lines ->
  match (store_sources env args start).1 with inr _ => true | inl _ => false end = true ->
  po.store lexical_cast configuration_options
    (po.parse_config_file lines configuration_options) (variables args) =
    inr (sources env args).
Proof.
  intros Hcl Hst Hpath Hfiles Hconf. unfold sources.
  rewrite (store_sources_discovery env args start cl (variables args) Hcl
             (variables_stored args cl Hcl Hst) Hpath).
  rewrite Hfiles, bind_run.
  pose proof (probe_configuration_files_first env [] conf rest lines (variables args) start
                (List.Forall_nil _) Hconf) as Hprobe.
  cbn [app] in Hprobe. rewrite Hprobe.
  change (po.store lexical_cast) with (po.store lexical_cast_uint).
  destruct (po.store lexical_cast_uint configuration_options _ _); cbn;
    [discriminate|reflexivity].
Qed.

(** ** The claims on the assembler *)


Lemma setup_configuration_twice_witness :
  let st1 := (setup_configuration bare (variables list_arguments) used).2 in
  exists contacts authorities st2,
    po.as_strings (po.get (variables list_arguments) "fscp.contact") = inr contacts /\
    Forall2 (fun s ep => parse_ep_type s = inr ep) contacts
      (contact_list (fscp (st_configuration st1))) /\
    po.as_strings (po.get (variables list_arguments) "security.authority_certificate_file") =
      inr authorities /\
    Forall2 (loads bare from_trusted_certificate) authorities
      (certificate_authority_list (security (st_configuration st1))) /\
    setup_configuration bare (variables list_arguments) st1 = (inr tt, st2) /\
    contact_list (fscp (st_configuration st2)) =
      contact_list (fscp (st_configuration st1)) /\
    certificate_authority_list (security (st_configuration st2)) =
      certificate_authority_list (security (st_configuration st1)) /\
    st_configuration st2 = st_configuration st1 /\
    (forall sa, exists sb,
       setup_configuration bare (variables list_arguments) sa = (inr tt, sb) /\
       contact_list (fscp (st_configuration sb)) =
         contact_list (fscp (st_configuration st1)) /\
       certificate_authority_list (security (st_configuration sb)) =
         certificate_authority_list (security (st_configuration st1))).
Proof.
  intros st1.
  apply (setup_configuration_twice bare (variables list_arguments) used).
  vm_compute. reflexivity.
Defined.

(** The lists of an earlier use are gone after a run. *)
Example setup_configuration_discards_lists :
  let st1 := (setup_configuration bare (variables list_arguments) used).2 in
  contact_list (fscp (st_configuration used)) = ["192.168.0.9:12000"] /\
  certificate_authority_list (security (st_configuration used)) = [Some "OLDCA"] /\
  contact_list (fscp (st_configuration st1)) = ["10.0.0.1:12000"; "10.0.0.2:12000"] /\
  certificate_authority_list (security (st_configuration st1)) = [Some "CA1"; Some "CA2"].
Proof. vm_compute. auto. Qed.

Lemma authority_certificate_load_failure_witness :
  let ex := library_error "PEM routines: no start line" in
  let vm := sources with_empty_certificate unconvertible_authority_arguments in
  let s2 :=
    ((setup_fscp_options vm;; setup_security_identity with_empty_certificate vm)
       (stored with_empty_certificate unconvertible_authority_arguments)).2 in
  let run :=
    parse_options with_empty_certificate unconvertible_authority_arguments
      (State default_configuration false []) in
  let trace := (st_trace s2 ++ map file_opened ["ca1.crt"] ++ [file_opened "empty.crt"])%list in
  run.1 = inl ex /\
  st_trace run.2 = trace /\
  main with_empty_certificate unconvertible_authority_arguments =
    (EXIT_FAILURE, (trace ++ [cerr_error ex])%list) /\
  (forall c d,
     ~ In (core_started c d)
         (main with_empty_certificate unconvertible_authority_arguments).2).
Proof.
  intros ex vm s2.
  apply (authority_certificate_load_failure with_empty_certificate
           unconvertible_authority_arguments vm
           (stored with_empty_certificate unconvertible_authority_arguments) s2
           ["ca1.crt"] [Some "CA1"] "empty.crt" ex ["ca3.crt"]).
  - apply store_sources_returned. vm_compute. reflexivity.
  - vm_compute. reflexivity.
  - vm_compute. reflexivity.
  - vm_compute. reflexivity.
  - vm_compute. reflexivity.
  - repeat constructor; eexists; split; reflexivity.
  - right. right. exists EmptyString. split; reflexivity.
Defined.

(** C7, as stated, fails: an authority certificate file that opens and
    holds no certificate ends the assembler with the exception of the
    conversion, and what [main] reports does not name the file. *)
Lemma unconvertible_authority_certificate :
  file_open with_empty_certificate "empty.crt" = inr EmptyString /\
  main with_empty_certificate unconvertible_authority_arguments =
    (EXIT_FAILURE,
     [ ifstream_opened user_file false; ifstream_opened "/opt/freelan/freelan.cfg" false;
       cerr_warning [user_file; "/opt/freelan/freelan.cfg"];
       file_opened "sig.crt"; file_opened "sig.key";
       file_opened "ca1.crt"; file_opened "empty.crt";
       cerr_error (library_error "PEM routines: no start line") ]).
Proof. vm_compute. auto. Qed.

(** A file that cannot be opened is named in what [main] reports. *)
Example unreadable_authority_certificate_named :
  main bare unreadable_authority_arguments =
    (EXIT_FAILURE,
     [ ifstream_opened user_file false; ifstream_opened "/opt/freelan/freelan.cfg" false;
       cerr_warning [user_file; "/opt/freelan/freelan.cfg"];
       file_opened "sig.crt"; file_opened "sig.key";
       file_opened "ca1.crt"; file_opened "ca2.crt"; file_opened "missing.crt";
       cerr_error (runtime_error "Unable to open the specified file: missing.crt") ]).
Proof. vm_compute. reflexivity. Qed.

(** ** The further properties *)

Lemma setup_configuration_rejects_protocol_witness :
  setup_configuration bare (variables bogus_protocol_arguments) start =
    (inl (runtime_error
            (quote +:+ "bogus" +:+ quote +:+ " is not a valid hostname resolution protocol")),
     start).
Proof.
  apply (setup_configuration_rejects_protocol bare (variables bogus_protocol_arguments)
           start "bogus").
  - vm_compute. reflexivity.
  - vm_compute. reflexivity.
Defined.

Lemma setup_configuration_rejects_contact_witness :
  setup_configuration bare (variables bad_contact_arguments) start =
    (inl (library_error "parse"),
     State (with_fscp (fun _ => Fscp_configuration udp_v4 "0.0.0.0:12000" 3000
                                  ["10.0.0.1:12000"])
              (st_configuration start))
       (st_debug start) (st_trace start)).
Proof.
  apply (setup_configuration_rejects_contact bare (variables bad_contact_arguments) start
           "system_default" udp_v4 "0.0.0.0:12000" "0.0.0.0:12000" 3000%N
           ["10.0.0.1:12000"] ["10.0.0.1:12000"] EmptyString (library_error "parse")
           ["10.0.0.3:12000"]).
  - vm_compute. reflexivity.
  - vm_compute. reflexivity.
  - vm_compute. reflexivity.
  - vm_compute. reflexivity.
  - vm_compute. reflexivity.
  - vm_compute. reflexivity.
  - repeat constructor.
  - vm_compute. reflexivity.
Defined.

Lemma setup_configuration_rejects_authority_witness :
  let vm := variables unreadable_authority_arguments in
  let s2 := ((setup_fscp_options vm;; setup_security_identity bare vm) start).2 in
  setup_configuration bare vm start =
    (inl (runtime_error ("Unable to open the specified file: " +:+ "missing.crt")),
     State (set_certificate_authority_list [Some "CA1"; Some "CA2"] (st_configuration s2))
       (st_debug s2)
       (st_trace s2 ++ map file_opened ["ca1.crt"; "ca2.crt"] ++ [file_opened "missing.crt"])).
Proof.
  intros vm s2.
  apply (setup_configuration_rejects_authority bare vm start s2
           ["ca1.crt"; "ca2.crt"] [Some "CA1"; Some "CA2"] "missing.crt" _ ["ca3.crt"]).
  - vm_compute. reflexivity.
  - vm_compute. reflexivity.
  - repeat constructor; eexists; split; reflexivity.
  - left. exists "fopen". split; reflexivity.
Defined.

(** The list of the caller's configuration when the third of four
    authority certificates cannot be opened. *)
Example authority_list_at_the_throw :
  let run := setup_configuration bare (variables unreadable_authority_arguments) start in
  run.1 = inl (runtime_error "Unable to open the specified file: missing.crt") /\
  certificate_authority_list (security (st_configuration run.2)) =
    [Some "CA1"; Some "CA2"].
Proof. vm_compute. auto. Qed.

Lemma setup_configuration_fscp_and_switch_witness :
  let c := st_configuration (setup_configuration bare (variables list_arguments) start).2 in
  exists protocol endpoint contacts method,
    po.as_string (po.get (variables list_arguments) "fscp.hostname_resolution_protocol") =
      inr protocol /\
    parse_network_hostname_resolution_protocol protocol =
      inr (hostname_resolution_protocol (fscp c)) /\
    po.as_string (po.get (variables list_arguments) "fscp.listen_on") = inr endpoint /\
    parse_ep_type endpoint = inr (listen_on (fscp c)) /\
    po.as_uint (po.get (variables list_arguments) "fscp.hello_timeout") =
      inr (hello_timeout (fscp c)) /\
    po.as_strings (po.get (variables list_arguments) "fscp.contact") = inr contacts /\
    Forall2 (fun s ep => parse_ep_type s = inr ep) contacts (contact_list (fscp c)) /\
    po.as_string (po.get (variables list_arguments) "switch.routing_method") = inr method /\
    to_routing_method method = inr (routing_method (switch_ c)) /\
    po.as_bool (po.get (variables list_arguments) "switch.relay_mode_enabled") =
      inr (relay_mode_enabled (switch_ c)).
Proof.
  apply (setup_configuration_fscp_and_switch bare (variables list_arguments) start).
  vm_compute. reflexivity.
Defined.

Lemma setup_configuration_tap_adapter_witness :
  let t := tap_adapter
             (st_configuration (setup_configuration bare (variables list_arguments) start).2) in
  exists ipv4 ipv6 ethernet dhcp_ipv4 dhcp_ipv6,
    po.as_bool (po.get (variables list_arguments) "tap_adapter.enabled") = inr (enabled t) /\
    po.as_string (po.get (variables list_arguments) "tap_adapter.ipv4_address_prefix_length") =
      inr ipv4 /\
    parse_optional_ipv4 ipv4 = inr (ipv4_address_prefix_length t) /\
    po.as_string (po.get (variables list_arguments) "tap_adapter.ipv6_address_prefix_length") =
      inr ipv6 /\
    parse_optional_ipv6 ipv6 = inr (ipv6_address_prefix_length t) /\
    po.as_bool (po.get (variables list_arguments) "tap_adapter.arp_proxy_enabled") =
      inr (arp_proxy_enabled t) /\
    po.as_string
      (po.get (variables list_arguments) "tap_adapter.arp_proxy_fake_ethernet_address") =
      inr ethernet /\
    parse_ethernet_address_type ethernet = inr (arp_proxy_fake_ethernet_address t) /\
    po.as_bool (po.get (variables list_arguments) "tap_adapter.dhcp_proxy_enabled") =
      inr (dhcp_proxy_enabled t) /\
    po.as_string
      (po.get (variables list_arguments) "tap_adapter.dhcp_server_ipv4_address_prefix_length") =
      inr dhcp_ipv4 /\
    parse_optional_ipv4 dhcp_ipv4 = inr (dhcp_server_ipv4_address_prefix_length t) /\
    po.as_string
      (po.get (variables list_arguments) "tap_adapter.dhcp_server_ipv6_address_prefix_length") =
      inr dhcp_ipv6 /\
    parse_optional_ipv6 dhcp_ipv6 = inr (dhcp_server_ipv6_address_prefix_length t).
Proof.
  apply (setup_configuration_tap_adapter bare (variables list_arguments) start).
  vm_compute. reflexivity.
Defined.

Lemma setup_configuration_security_witness :
  let s := security
             (st_configuration (setup_configuration bare (variables list_arguments) start).2) in
  exists method ev_identity ev_authorities,
    identity_loaded bare (variables list_arguments) (identity s) ev_identity /\
    po.as_string (po.get (variables list_arguments) "security.certificate_validation_method") =
      inr method /\
    to_certificate_validation_method method = inr (certificate_validation_method s) /\
    authorities_loaded bare (variables list_arguments) (certificate_authority_list s)
      ev_authorities /\
    st_trace (setup_configuration bare (variables list_arguments) start).2 =
      (st_trace start ++ ev_identity ++ ev_authorities)%list.
Proof.
  apply (setup_configuration_security bare (variables list_arguments) start).
  vm_compute. reflexivity.
Defined.

(** The files of a returning run, in the order they were opened. *)
Example setup_configuration_opens_in_order :
  st_trace (setup_configuration bare
              (variables (list_arguments ++
                          [ ("security.encryption_private_key_file", ["enc.key"]);
                            ("security.encryption_certificate_file", ["enc.crt"]) ])%list)
              start).2 =
    [ file_opened "sig.crt"; file_opened "sig.key"; file_opened "enc.crt";
      file_opened "enc.key"; file_opened "ca1.crt"; file_opened "ca2.crt" ].
Proof. vm_compute. reflexivity. Qed.


Lemma parse_options_true_witness :
  exists vm s1 s2 script,
    store_sources bare debug_arguments start = (inr vm, s1) /\
    po.notify vm = None /\
    po.count vm "help" = false /\
    setup_configuration bare vm s1 = (inr tt, s2) /\
    po.as_string (po.get vm "security.certificate_validation_script") = inr script /\
    st_configuration (parse_options bare debug_arguments start).2 =
      (if String.eqb script EmptyString then st_configuration s2
       else set_certificate_validation_callback (callback_script script)
              (st_configuration s2)) /\
    callback_of (parse_options bare debug_arguments start).2 =
      (if String.eqb script EmptyString then callback_of start
       else callback_script script) /\
    st_debug (parse_options bare debug_arguments start).2 =
      (if po.count vm "debug" then true else st_debug start) /\
    st_trace (parse_options bare debug_arguments start).2 = st_trace s2.
Proof.
  apply (parse_options_true bare debug_arguments start).
  vm_compute. reflexivity.
Defined.

Example parse_options_binds_and_raises :
  callback_of (parse_options bare debug_arguments start).2 = callback_script "check.sh" /\
  st_debug (parse_options bare debug_arguments start).2 = true.
Proof. vm_compute. auto. Qed.

Lemma parse_options_changes_flags_only_on_true_witness :
  st_debug (parse_options bare help_arguments start).2 = st_debug start /\
  callback_of (parse_options bare help_arguments start).2 = callback_of start.
Proof.
  apply (parse_options_changes_flags_only_on_true bare help_arguments start).
  vm_compute. discriminate.
Defined.

Lemma discovery_reads_first_file_witness :
  store_sources with_user_file script_arguments start =
    (inr (sources with_user_file script_arguments),
     State (st_configuration start) (st_debug start)
       [ ifstream_opened user_file true; cout_reading user_file;
         cerr_warning [user_file; "/opt/freelan/freelan.cfg"] ]).
Proof.
  rewrite (store_sources_returned with_user_file script_arguments)
    by (vm_compute; reflexivity).
  apply f_equal. unfold stored.
  rewrite (discovery_reads_first_file with_user_file script_arguments start
             (map (fun a => po.Basic_option a.1 a.2 false) script_arguments)
             (variables script_arguments) [] user_file ["/opt/freelan/freelan.cfg"]
             [ ("security.signature_certificate_file", "sig.crt");
               ("security.signature_private_key_file", "sig.key");
               ("security.certificate_validation_script", "check.sh");
               ("tap_adapter.enabled", "true") ]).
  - match goal with
    | |- context [match ?r with inl _ => _ | inr _ => _ end] =>
        cut (match r with inr _ => true | inl _ => false end = true);
        [ destruct r; [discriminate | reflexivity] | vm_compute; reflexivity ]
    end.
  - vm_compute. reflexivity.
  - apply (variables_stored script_arguments); vm_compute; reflexivity.
  - right. vm_compute. auto.
  - reflexivity.
  - constructor.
  - reflexivity.
Defined.

Lemma discovery_finds_nothing_witness :
  store_sources bare script_arguments start =
    (inr (variables script_arguments),
     State (st_configuration start) (st_debug start)
       (st_trace start ++ probes (get_configuration_files bare) ++
        [cerr_warning (get_configuration_files bare)])).
Proof.
  refine (discovery_finds_nothing bare script_arguments start
            (map (fun a => po.Basic_option a.1 a.2 false) script_arguments)
            (variables script_arguments) _ _ _ _).
  - vm_compute. reflexivity.
  - apply (variables_stored script_arguments); vm_compute; reflexivity.
  - right. vm_compute. auto.
  - repeat constructor.
Defined.

Lemma configuration_file_sets_configuration_options_only_witness :
  po.get (sources with_generic_file []) "help" = po.get (variables []) "help" /\
  po.count (sources with_generic_file []) "help" = po.count (variables []) "help".
Proof.
  refine (configuration_file_sets_configuration_options_only with_generic_file [] start
            (sources with_generic_file []) (stored with_generic_file []) []
            (variables []) "help" _ _ _ _).
  - vm_compute. reflexivity.
  - apply (variables_stored []); vm_compute; reflexivity.
  - apply store_sources_returned. vm_compute. reflexivity.
  - vm_compute. reflexivity.
Defined.

(** The generic options in the file are without effect: no usage text, no
    debug level, no other file. *)
Example generic_options_in_file_ignored :
  po.count (sources with_generic_file []) "help" = false /\
  po.count (sources with_generic_file []) "debug" = false /\
  po.count (sources with_generic_file []) "configuration_file" = false /\
  po.count (sources with_generic_file []) "security.certificate_validation_script" = true.
Proof. vm_compute. auto. Qed.

Lemma configuration_file_fills_absent_option_witness :
  (exists a,
     po.parse lexical_cast_uint "tap_adapter.enabled"
       (po.typed po.K_bool (Some (po.any_bool true)) false) po.any_empty ["false"] = inr a /\
     po.get (sources (disk None [(user_file, [("tap_adapter.enabled", "false")])] credentials)
               script_arguments) "tap_adapter.enabled" = po.Variable_value a false) /\
  (exists ex,
     po.store lexical_cast_uint configuration_options
       (po.parse_config_file
          ([] ++ ("tap_adapter.enabled", "false") ::
           [] ++ ("tap_adapter.enabled", "false") :: [])
          configuration_options)
       (variables script_arguments) = inl ex).
Proof.
  destruct (configuration_file_fills_absent_option script_arguments
              (map (fun a => po.Basic_option a.1 a.2 false) script_arguments)
              (variables script_arguments) "tap_adapter.enabled"
              (po.Option_description "tap_adapter.enabled"
                 (po.typed po.K_bool (Some (po.any_bool true)) false))
              po.K_bool (Some (po.any_bool true)) false) as [Hfill Htwice].
  - vm_compute. reflexivity.
  - apply (variables_stored script_arguments); vm_compute; reflexivity.
  - vm_compute. intuition discriminate.
  - reflexivity.
  - reflexivity.
  - discriminate.
  - split; [|apply Htwice].
    apply (Hfill [("tap_adapter.enabled", "false")]
             (sources (disk None [(user_file, [("tap_adapter.enabled", "false")])] credentials)
                script_arguments)).
    + apply (file_values_stored _ script_arguments
               (map (fun a => po.Basic_option a.1 a.2 false) script_arguments)
               user_file ["/opt/freelan/freelan.cfg"]).
      * vm_compute. reflexivity.
      * vm_compute. reflexivity.
      * right. vm_compute. auto.
      * reflexivity.
      * reflexivity.
      * vm_compute. reflexivity.
    + left. reflexivity.
Defined.

(** The exception of a file that has the option twice. *)
Example configuration_file_option_twice :
  po.store lexical_cast configuration_options
    (po.parse_config_file
       [("tap_adapter.enabled", "false"); ("tap_adapter.enabled", "false")]
       configuration_options)
    (variables script_arguments) = inl (multiple_occurrences "tap_adapter.enabled").
Proof. vm_compute. reflexivity. Qed.

Lemma stored_values_read_as_declared_witness :
  (po.count (sources bare signature_arguments) "fscp.hello_timeout" = true ->
   reads_as (po.typed po.K_uint (Some (po.any_uint 3000)) false)
     (po.get (sources bare signature_arguments) "fscp.hello_timeout")) /\
  (is_Some (Some (po.any_uint 3000)) ->
   po.count (sources bare signature_arguments) "fscp.hello_timeout" = true) /\
  (false = true -> po.notify (sources bare signature_arguments) = None ->
   po.count (sources bare signature_arguments) "fscp.hello_timeout" = true).
Proof.
  refine (stored_values_read_as_declared bare signature_arguments start
            (sources bare signature_arguments) (stored bare signature_arguments)
            "fscp.hello_timeout"
            (po.Option_description "fscp.hello_timeout"
               (po.typed po.K_uint (Some (po.any_uint 3000)) false)) _ _).
  - apply store_sources_returned. vm_compute. reflexivity.
  - reflexivity.
Defined.
